(** * samsung-cli: a shallow embedding of [src/samsung-cli.cpp]

    The command-line tool reads and writes single-line sysfs attributes.
    The embedding keeps the structure of the C++ file: the path constants,
    [detect_feature_path], the [file_ops] namespace, one handler per
    [Command] subclass and [main].  Everything that touches the operating
    system runs in a small state monad over a [world]: the files and
    directories the kernel exposes, the two output streams, and the list
    of system calls made so far. *)

From Stdlib Require Import ZArith Ascii String List Lia Bool.
From stdpp Require Import base option gmap strings list fin_maps.

Local Open Scope string_scope.
Local Open Scope Z_scope.
Local Open Scope list_scope.

(** ** Characters and C strings *)

Definition code (c : ascii) : Z := Z.of_nat (nat_of_ascii c).

(** [std::endl] and the escape [\n] inside the string literals. *)
Definition nl : string := String (ascii_of_nat 10) EmptyString.
Definition endl : string := nl.

(** [isspace] in the "C" locale: space, \t, \n, \v, \f, \r. *)
Definition isspace (c : ascii) : bool :=
  (code c =? 32) || ((9 <=? code c) && (code c <=? 13)).

(** [isdigit]: '0' (48) .. '9' (57). *)
Definition isdigit (c : ascii) : bool :=
  (48 <=? code c) && (code c <=? 57).

Definition digit_value (c : ascii) : Z := code c - 48.

Definition digit_char (d : Z) : ascii := ascii_of_nat (Z.to_nat (48 + d)).

(** [strncmp(s1, s2, n)] on NUL-terminated strings: the end of a Rocq
    string stands for the terminator. The result is the difference of the
    first pair of bytes that differ, 0 when the first [n] bytes agree. *)
Fixpoint strncmp (s1 s2 : string) (n : nat) : Z :=
  match n with
  | O => 0
  | S n' =>
      match s1, s2 with
      | EmptyString, EmptyString => 0
      | EmptyString, String c2 _ => 0 - code c2
      | String c1 _, EmptyString => code c1
      | String c1 r1, String c2 r2 =>
          if code c1 =? code c2
          then (if code c1 =? 0 then 0 else strncmp r1 r2 n')
          else code c1 - code c2
      end
  end.

(** ** [std::stoi] and [std::to_string] *)

Definition INT_MIN : Z := - 2147483648.
Definition INT_MAX : Z := 2147483647.

(** The three outcomes of [std::stoi(value)]: the parsed [int], or one of
    the two exceptions it throws. *)
Inductive stoi_result : Type :=
  | StoiOk (v : Z)
  | StoiInvalidArgument
  | StoiOutOfRange.

(** [strtol] first skips leading white space. *)
Fixpoint skip_space (s : string) : string :=
  match s with
  | String c r => if isspace c then skip_space r else s
  | EmptyString => EmptyString
  end.

(** Then an optional sign: [true] for '-'. *)
Definition take_sign (s : string) : bool * string :=
  match s with
  | String c r =>
      if code c =? 45 then (true, r)
      else if code c =? 43 then (false, r)
      else (false, s)
  | EmptyString => (false, s)
  end.

(** Then the longest run of decimal digits, accumulated in base 10;
    conversion stops at the first character that is not a digit. *)
Fixpoint digits_value (acc : Z) (s : string) : Z :=
  match s with
  | String c r =>
      if isdigit c then digits_value (acc * 10 + digit_value c) r else acc
  | EmptyString => acc
  end.

(** [std::stoi(str)] with the default base 10 and no [pos] argument.
    No digit after the sign: [std::invalid_argument].  A value that does
    not fit [int] (this includes the case where [strtol] itself reports
    ERANGE): [std::out_of_range].  Characters after the digits are
    ignored, as the caller passes no [pos] to look at. *)
Definition stoi (str : string) : stoi_result :=
  let (neg, s) := take_sign (skip_space str) in
  match s with
  | String c _ =>
      if isdigit c then
        let v := digits_value 0 s in
        let v' := if neg then - v else v in
        if (INT_MIN <=? v') && (v' <=? INT_MAX) then StoiOk v'
        else StoiOutOfRange
      else StoiInvalidArgument
  | EmptyString => StoiInvalidArgument
  end.

(** The decimal digits of a non-negative number, most significant first,
    put in front of [acc]. The fuel bounds the number of digits. *)
Fixpoint decimal_digits (fuel : nat) (n : Z) (acc : string) : string :=
  match fuel with
  | O => acc
  | S fuel' =>
      let acc' := String (digit_char (n mod 10)) acc in
      if n / 10 =? 0 then acc' else decimal_digits fuel' (n / 10) acc'
  end.

(** A number has no more decimal digits than binary ones. *)
Definition decimal (n : Z) : string :=
  decimal_digits (S (Z.to_nat (Z.log2 n))) n EmptyString.

(** [std::to_string(int)], the "%d" format; [operator<<(int)] prints the
    same characters. *)
Definition to_string (val : Z) : string :=
  if val <? 0 then String "-"%char (decimal (- val)) else decimal val.

(** ** [std::getline] and [std::string::find] *)

(** The characters [std::getline] stores: those before the first '\n'
    (the delimiter is dropped), or all of them when there is none. *)
Fixpoint first_line (s : string) : string :=
  match s with
  | String c r => if code c =? 10 then EmptyString else String c (first_line r)
  | EmptyString => EmptyString
  end.

(** [s.find(pat)]: the lowest position at which [pat] occurs in [s];
    [None] is [std::string::npos]. *)
Fixpoint find_from (pos : nat) (s pat : string) : option nat :=
  if String.prefix pat s then Some pos
  else match s with
       | String _ r => find_from (S pos) r pat
       | EmptyString => None
       end.

Definition find (s pat : string) : option nat := find_from 0 s pat.

(** ** The world the process runs in *)

Inductive access_mode : Type := R_OK | W_OK.

(** The system calls the properties speak of, in the order the program
    makes them: permission checks, directory calls, opens and writes.
    The reads behind [std::getline] and the closing of a stream are not
    recorded. *)
Inductive syscall : Type :=
  | SysAccess (path : string) (mode : access_mode)
  | SysOpendir (path : string)
  | SysReaddir (path : string)
  | SysClosedir (path : string)
  | SysOpenRead (path : string)
  | SysOpenWrite (path : string)
  | SysWrite (path : string) (data : string).

(** A file as the program can observe it. [access(2)] and [open(2)] are
    answered separately: an open may fail although the permission check
    passed.  [f_read_ok] says whether reading from the opened file works;
    it does not for a directory or an attribute whose driver reports an
    I/O error.  [f_write_ok] says whether a write to the opened file is
    taken; it is not when the driver behind an attribute refuses the
    value or the device is full. *)
Record file : Type := mkFile {
  f_data : string;
  f_access_r : bool;
  f_access_w : bool;
  f_open_r : bool;
  f_open_w : bool;
  f_read_ok : bool;
  f_write_ok : bool
}.

Definition set_data (f : file) (data : string) : file :=
  {| f_data := data;
     f_access_r := f_access_r f; f_access_w := f_access_w f;
     f_open_r := f_open_r f; f_open_w := f_open_w f;
     f_read_ok := f_read_ok f; f_write_ok := f_write_ok f |}.

(** [dirs] holds, for every directory [opendir] can open, the entry names
    in the order [readdir] yields them. *)
Record world : Type := mkWorld {
  files : gmap string file;
  dirs : gmap string (list string);
  cout : string;
  cerr : string;
  trace : list syscall
}.

(** ** The state monad *)

Definition M (A : Type) : Type := world -> A * world.

Definition ret {A : Type} (a : A) : M A := fun w => (a, w).

Definition bind {A B : Type} (m : M A) (k : A -> M B) : M B :=
  fun w => let (a, w') := m w in k a w'.

Declare Scope monad_scope.
Delimit Scope monad_scope with monad.
Notation "x <- m ;; k" := (bind m (fun x => k))
  (at level 100, m at next level, k at level 200, right associativity)
  : monad_scope.
Notation "m ;; k" := (bind m (fun _ => k))
  (at level 100, k at level 200, right associativity) : monad_scope.
Local Open Scope monad_scope.

Definition log (e : syscall) : M unit :=
  fun w => (tt, {| files := files w; dirs := dirs w; cout := cout w;
                   cerr := cerr w; trace := trace w ++ [e] |}).

(** [std::cout << s] and [std::cerr << s]. *)
Definition print_out (s : string) : M unit :=
  fun w => (tt, {| files := files w; dirs := dirs w; cout := cout w +:+ s;
                   cerr := cerr w; trace := trace w |}).

Definition print_err (s : string) : M unit :=
  fun w => (tt, {| files := files w; dirs := dirs w; cout := cout w;
                   cerr := cerr w +:+ s; trace := trace w |}).

Definition get_file (path : string) : M (option file) :=
  fun w => (files w !! path, w).

Definition put_file (path : string) (f : file) : M unit :=
  fun w => (tt, {| files := <[path := f]> (files w); dirs := dirs w;
                   cout := cout w; cerr := cerr w; trace := trace w |}).

Definition get_dir (path : string) : M (option (list string)) :=
  fun w => (dirs w !! path, w).

(** [access(path, mode) == 0]. A path that does not exist fails. *)
Definition access (path : string) (mode : access_mode) : M bool :=
  log (SysAccess path mode) ;;
  f <- get_file path ;;
  ret match f with
      | Some f => match mode with R_OK => f_access_r f | W_OK => f_access_w f end
      | None => false
      end.

(** [opendir(path)]: the entries to come, or [None] for [nullptr]. *)
Definition opendir (path : string) : M (option (list string)) :=
  log (SysOpendir path) ;; get_dir path.

Definition readdir (path : string) : M unit := log (SysReaddir path).
Definition closedir (path : string) : M unit := log (SysClosedir path).

(** [std::ifstream file(path)] and [file.is_open()]. *)
Definition ifstream_open (path : string) : M (option file) :=
  log (SysOpenRead path) ;;
  f <- get_file path ;;
  ret match f with
      | Some f => if f_open_r f then Some f else None
      | None => None
      end.

(** [std::getline(file, value)] on a freshly opened stream: [value] is
    erased, then receives the first line. When nothing can be read (empty
    file, read error) it stays empty and only the stream's fail bit is
    set, which the caller never looks at. *)
Definition getline (f : file) : string :=
  if f_read_ok f then first_line (f_data f) else EmptyString.

(** [std::ofstream file(path)]: opens with truncation. The path exists
    whenever [write_file] gets here, as the [access] check came first. *)
Definition ofstream_open (path : string) : M bool :=
  log (SysOpenWrite path) ;;
  f <- get_file path ;;
  match f with
  | Some f =>
      if f_open_w f then put_file path (set_data f EmptyString) ;; ret true
      else ret false
  | None => ret false
  end.

(** [file << value; file.close()]: the characters go out as they are, no
    newline added. When the write is taken they are appended to the
    (truncated) file; when it is not, the file stays as the open left
    it. The stream's state is not looked at afterwards, so the caller
    cannot tell the two apart. *)
Definition ofstream_write (path : string) (value : string) : M unit :=
  log (SysWrite path value) ;;
  f <- get_file path ;;
  match f with
  | Some f =>
      if f_write_ok f then put_file path (set_data f (f_data f +:+ value))
      else ret tt
  | None => ret tt
  end.

(** ** Path constants and [detect_feature_path] *)

Definition POWER_PATH : string :=
  "/sys/class/power_supply/BAT1/charge_control_end_threshold".
Definition FAN_PATH : string :=
  "/sys/bus/acpi/devices/PNP0C0B:00/fan_speed_rpm".
Definition PLATFORM_PROFILE_PATH : string :=
  "/sys/firmware/acpi/platform_profile".
Definition PLATFORM_PROFILE_CHOICES_PATH : string :=
  "/sys/firmware/acpi/platform_profile_choices".
Definition KBD_BACKLIGHT_PATH : string :=
  "/sys/class/leds/samsung-galaxybook::kbd_backlight/brightness".

Definition UDEV_DIR : string := "/dev/samsung-galaxybook/".
Definition DRIVER_DIR : string := "/sys/bus/platform/drivers/samsung-galaxybook".
Definition ACPI_DIR : string := "/sys/bus/acpi/devices/SCAI:00/".

Definition nested_path (d_name feature_name : string) : string :=
  "/sys/bus/platform/drivers/samsung-galaxybook/" +:+ d_name +:+ "/" +:+ feature_name.

(** The [while ((entry = readdir(dir)) != nullptr)] loop over the entries
    still to come. [Some path] is the early [return path]. *)
Fixpoint scan_driver_dir (feature_name : string) (entries : list string)
  : M (option string) :=
  match entries with
  | [] => readdir DRIVER_DIR ;; ret None
  | d_name :: rest =>
      readdir DRIVER_DIR ;;
      if strncmp d_name "SAM" 3 =? 0 then
        let path := nested_path d_name feature_name in
        ok <- access path R_OK ;;
        if ok then closedir DRIVER_DIR ;; ret (Some path)
        else scan_driver_dir feature_name rest
      else scan_driver_dir feature_name rest
  end.

Definition detect_feature_path (feature_name : string) : M string :=
  let udev_path := UDEV_DIR +:+ feature_name in
  ok <- access udev_path R_OK ;;
  if ok then ret udev_path
  else
    dir <- opendir DRIVER_DIR ;;
    match dir with
    | Some entries =>
        found <- scan_driver_dir feature_name entries ;;
        match found with
        | Some path => ret path
        | None => closedir DRIVER_DIR ;; ret (ACPI_DIR +:+ feature_name)
        end
    | None => ret (ACPI_DIR +:+ feature_name)
    end.

(** The three globals initialised before [main] runs. *)
Record globals : Type := mkGlobals {
  ALLOW_RECORDING_PATH : string;
  START_ON_LID_OPEN_PATH : string;
  USB_CHARGE_PATH : string
}.

Definition static_init : M globals :=
  p1 <- detect_feature_path "allow_recording" ;;
  p2 <- detect_feature_path "start_on_lid_open" ;;
  p3 <- detect_feature_path "usb_charge" ;;
  ret {| ALLOW_RECORDING_PATH := p1; START_ON_LID_OPEN_PATH := p2;
         USB_CHARGE_PATH := p3 |}.

(** ** [namespace file_ops] *)

Module file_ops.

Definition check_permissions (path : string) (write : bool) : M bool :=
  ok <- access path (if write then W_OK else R_OK) ;;
  if ok then ret true
  else print_err ("Error: Permission denied. Run with sudo." +:+ endl) ;;
       ret false.

(** [read_file(path, value)]: [value] is passed by reference, so the
    result carries its new contents next to the returned flag. *)
Definition read_file (path : string) (value : string) : M (bool * string) :=
  file <- ifstream_open path ;;
  match file with
  | None =>
      print_err ("Error: Could not open " +:+ path +:+ endl) ;;
      ret (false, value)
  | Some f => ret (true, getline f)
  end.

Definition write_file (path : string) (value : string) : M bool :=
  ok <- check_permissions path true ;;
  if negb ok then ret false
  else
    opened <- ofstream_open path ;;
    if negb opened then
      print_err ("Error: Could not write to " +:+ path +:+ endl) ;;
      ret false
    else
      ofstream_write path value ;;
      ret true.

End file_ops.

(** ** The command classes *)

Inductive Command : Type :=
  | PowerCommand
  | FanCommand
  | PerformanceCommand
  | RecordingCommand
  | KeyboardCommand
  | StartOnLidOpenCommand
  | UsbChargeCommand
  | HelpCommand.

#[global] Instance Command_eq_dec : EqDecision Command.
Proof. solve_decision. Defined.

(** [std::map<std::string, std::unique_ptr<Command>>]: the entries in
    increasing key order, which is the order a range-for visits them. *)
Definition command_map : Type := list (string * Command).

(** [commands[key] = cmd]. *)
Fixpoint map_assign (key : string) (cmd : Command) (m : command_map)
  : command_map :=
  match m with
  | [] => [(key, cmd)]
  | (k, c) :: rest =>
      if String.eqb key k then (key, cmd) :: rest
      else if String.ltb key k then (key, cmd) :: (k, c) :: rest
      else (k, c) :: map_assign key cmd rest
  end.

(** [commands.find(key)]; [None] is [commands.end()]. *)
Fixpoint map_find (key : string) (m : command_map) : option Command :=
  match m with
  | [] => None
  | (k, c) :: rest => if String.eqb key k then Some c else map_find key rest
  end.

Definition get_help (c : Command) : string :=
  match c with
  | PowerCommand =>
      "  power read    Read the charge threshold" +:+ nl +:+
      "  power set <value>  Set the charge threshold (0-100)"
  | FanCommand =>
      "  fan read      Read current fan speed in RPM"
  | PerformanceCommand =>
      "  perf read     Read current performance mode" +:+ nl +:+
      "  perf set <mode>  Set performance mode (low-power/balanced/performance)" +:+ nl +:+
      "  perf list     List available performance modes"
  | RecordingCommand =>
      "  record read   Read recording permission status" +:+ nl +:+
      "  record set <value>  Set recording permission (0/1, on/off, true/false, yes/no)"
  | KeyboardCommand =>
      "  kbd read      Read keyboard backlight level" +:+ nl +:+
      "  kbd set <0-3> Set keyboard backlight level (0=off, 1-3=brightness)" +:+ nl +:+
      "               Note: Backlight may be affected by ambient light sensor" +:+ nl +:+
      "               and GNOME's automatic backlight control"
  | StartOnLidOpenCommand =>
      "  start-on-lid-open read   Read start on lid open status" +:+ nl +:+
      "  start-on-lid-open set <value>  Set start on lid open (0/1, on/off, true/false, yes/no)"
  | UsbChargeCommand =>
      "  usb-charge read   Read USB charge status" +:+ nl +:+
      "  usb-charge set <value>  Set USB charge (0/1, on/off, true/false, yes/no)"
  | HelpCommand =>
      "  help          Show this help message"
  end.

(** The test shared by the three on/off handlers:
    [Some "0"], [Some "1"], or [None] for the error branch. *)
Definition normalize (value : string) : option string :=
  if String.eqb value "0" || String.eqb value "off"
     || String.eqb value "false" || String.eqb value "no"
  then Some "0"
  else if String.eqb value "1" || String.eqb value "on"
          || String.eqb value "true" || String.eqb value "yes"
  then Some "1"
  else None.

Definition enabled_text (value : string) : string :=
  if String.eqb value "1" then "Enabled" else "Disabled".

Section Handlers.

(** The globals set by the static initialisers. *)
Variable g : globals.

(** *** PowerCommand *)

Definition read_power : M bool :=
  r <- file_ops.read_file POWER_PATH EmptyString ;;
  let (ok, value) := r in
  if negb ok then ret false
  else print_out ("Current charge threshold: " +:+ value +:+ "%" +:+ endl) ;;
       ret true.

Definition set_power (value : string) : M bool :=
  match stoi value with
  | StoiOk val =>
      if (val <? 0) || (val >? 100) then
        print_err ("Error: Value must be between 0 and 100" +:+ endl) ;;
        ret false
      else
        ok <- file_ops.write_file POWER_PATH (to_string val) ;;
        if negb ok then ret false
        else print_out ("Set charge threshold to " +:+ to_string val +:+ "%" +:+ endl) ;;
             ret true
  | _ =>
      print_err ("Error: Invalid value '" +:+ value +:+ "'" +:+ endl) ;;
      ret false
  end.

Definition execute_power (args : list string) : M bool :=
  match args with
  | _ :: subcommand :: rest =>
      if String.eqb subcommand "read" then read_power
      else if String.eqb subcommand "set" then
        match rest with
        | value :: _ => set_power value
        | [] => print_err ("Error: Missing value for 'power set'" +:+ endl) ;;
                ret false
        end
      else print_err ("Error: Unknown power subcommand '" +:+ subcommand +:+ "'" +:+ endl) ;;
           ret false
  | _ => print_err ("Error: Missing power subcommand. Use 'read' or 'set'." +:+ endl) ;;
         ret false
  end.

(** *** FanCommand *)

Definition read_fan : M bool :=
  r <- file_ops.read_file FAN_PATH EmptyString ;;
  let (ok, value) := r in
  if negb ok then ret false
  else print_out ("Current fan speed: " +:+ value +:+ " RPM" +:+ endl) ;;
       ret true.

Definition execute_fan (args : list string) : M bool :=
  match args with
  | _ :: subcommand :: _ =>
      if String.eqb subcommand "read" then read_fan
      else print_err ("Error: Unknown fan subcommand '" +:+ subcommand +:+ "'" +:+ endl) ;;
           ret false
  | _ => print_err ("Error: Missing fan subcommand. Use 'read'." +:+ endl) ;;
         ret false
  end.

(** *** PerformanceCommand *)

Definition read_performance_mode : M bool :=
  r <- file_ops.read_file PLATFORM_PROFILE_PATH EmptyString ;;
  let (ok, value) := r in
  if negb ok then ret false
  else print_out ("Current performance mode: " +:+ value +:+ endl) ;;
       ret true.

Definition set_performance_mode (mode : string) : M bool :=
  r <- file_ops.read_file PLATFORM_PROFILE_CHOICES_PATH EmptyString ;;
  let (ok, available_modes) := r in
  if negb ok then ret false
  else
    match find available_modes mode with
    | None =>
        print_err ("Error: Invalid performance mode '" +:+ mode +:+ "'" +:+ endl) ;;
        ret false
    | Some _ =>
        ok <- file_ops.write_file PLATFORM_PROFILE_PATH mode ;;
        if negb ok then ret false
        else print_out ("Set performance mode to " +:+ mode +:+ endl) ;;
             ret true
    end.

Definition list_performance_modes : M bool :=
  r <- file_ops.read_file PLATFORM_PROFILE_CHOICES_PATH EmptyString ;;
  let (ok, value) := r in
  if negb ok then ret false
  else print_out ("Available performance modes: " +:+ value +:+ endl) ;;
       ret true.

Definition execute_performance (args : list string) : M bool :=
  match args with
  | _ :: subcommand :: rest =>
      if String.eqb subcommand "read" then read_performance_mode
      else if String.eqb subcommand "set" then
        match rest with
        | mode :: _ => set_performance_mode mode
        | [] => print_err ("Error: Missing mode for 'perf set'" +:+ endl) ;;
                ret false
        end
      else if String.eqb subcommand "list" then list_performance_modes
      else print_err ("Error: Unknown performance subcommand '" +:+ subcommand +:+ "'" +:+ endl) ;;
           ret false
  | _ => print_err ("Error: Missing performance subcommand. Use 'read', 'set', or 'list'." +:+ endl) ;;
         ret false
  end.

(** *** RecordingCommand, StartOnLidOpenCommand, UsbChargeCommand

    The three classes have the same two private methods up to the path
    and the text printed; [read_onoff] and [set_onoff] are that common
    body. *)

Definition read_onoff (path label : string) : M bool :=
  r <- file_ops.read_file path EmptyString ;;
  let (ok, value) := r in
  if negb ok then ret false
  else print_out (label +:+ enabled_text value +:+ endl) ;;
       ret true.

Definition set_onoff (path label : string) (value : string) : M bool :=
  match normalize value with
  | None =>
      print_err ("Error: Value must be one of: 0/1, on/off, true/false, yes/no" +:+ endl) ;;
      ret false
  | Some normalized_value =>
      ok <- file_ops.write_file path normalized_value ;;
      if negb ok then ret false
      else print_out (label +:+ enabled_text normalized_value +:+ endl) ;;
           ret true
  end.

Definition read_recording_status : M bool :=
  read_onoff (ALLOW_RECORDING_PATH g) "Recording permission: ".
Definition set_recording_status (value : string) : M bool :=
  set_onoff (ALLOW_RECORDING_PATH g) "Set recording permission to " value.

Definition read_status_lid : M bool :=
  read_onoff (START_ON_LID_OPEN_PATH g) "Start on lid open: ".
Definition set_status_lid (value : string) : M bool :=
  set_onoff (START_ON_LID_OPEN_PATH g) "Set start on lid open to " value.

Definition read_status_usb : M bool :=
  read_onoff (USB_CHARGE_PATH g) "USB charge: ".
Definition set_status_usb (value : string) : M bool :=
  set_onoff (USB_CHARGE_PATH g) "Set USB charge to " value.

(** The [execute] of a class with the subcommands [read] and [set]. *)
Definition execute_read_set (what cmd : string) (do_read : M bool)
    (do_set : string -> M bool) (args : list string) : M bool :=
  match args with
  | _ :: subcommand :: rest =>
      if String.eqb subcommand "read" then do_read
      else if String.eqb subcommand "set" then
        match rest with
        | value :: _ => do_set value
        | [] => print_err ("Error: Missing value for '" +:+ cmd +:+ " set'" +:+ endl) ;;
                ret false
        end
      else print_err ("Error: Unknown " +:+ what +:+ " subcommand '" +:+ subcommand +:+ "'" +:+ endl) ;;
           ret false
  | _ => print_err ("Error: Missing " +:+ what +:+ " subcommand. Use 'read' or 'set'." +:+ endl) ;;
         ret false
  end.

Definition execute_recording : list string -> M bool :=
  execute_read_set "recording" "record" read_recording_status set_recording_status.
Definition execute_lid : list string -> M bool :=
  execute_read_set "start-on-lid-open" "start-on-lid-open" read_status_lid set_status_lid.
Definition execute_usb : list string -> M bool :=
  execute_read_set "usb-charge" "usb-charge" read_status_usb set_status_usb.

(** *** KeyboardCommand *)

Definition read_keyboard_backlight : M bool :=
  r <- file_ops.read_file KBD_BACKLIGHT_PATH EmptyString ;;
  let (ok, value) := r in
  if negb ok then ret false
  else print_out ("Keyboard backlight level: " +:+ value +:+ endl) ;;
       ret true.

Definition set_keyboard_backlight (value : string) : M bool :=
  match stoi value with
  | StoiOk val =>
      if (val <? 0) || (val >? 3) then
        print_err ("Error: Value must be between 0 and 3" +:+ endl) ;;
        ret false
      else
        ok <- file_ops.write_file KBD_BACKLIGHT_PATH (to_string val) ;;
        if negb ok then ret false
        else print_out ("Set keyboard backlight level to " +:+ to_string val +:+ endl) ;;
             ret true
  | _ =>
      print_err ("Error: Invalid value '" +:+ value +:+ "'" +:+ endl) ;;
      ret false
  end.

Definition execute_keyboard : list string -> M bool :=
  execute_read_set "keyboard" "kbd" read_keyboard_backlight set_keyboard_backlight.

(** *** HelpCommand

    The object keeps a reference to the map it is stored in, so what it
    prints is the map as it is when [execute] runs; [commands] is that
    map. *)

Fixpoint print_entries (commands : command_map) : M unit :=
  match commands with
  | [] => ret tt
  | (_, cmd) :: rest => print_out (get_help cmd +:+ nl) ;; print_entries rest
  end.

Definition print_help (commands : command_map) : M unit :=
  print_out ("Usage: samsung-cli <command> [<args>]" +:+ nl +:+
             "CLI tool to control Samsung Galaxy Book features." +:+ nl +:+ nl +:+
             "Commands:" +:+ nl) ;;
  print_entries commands.

Definition execute_help (commands : command_map) (args : list string) : M bool :=
  print_help commands ;; ret true.

(** The virtual call [cmd->execute(args)]. *)
Definition execute (commands : command_map) (cmd : Command)
    (args : list string) : M bool :=
  match cmd with
  | PowerCommand => execute_power args
  | FanCommand => execute_fan args
  | PerformanceCommand => execute_performance args
  | RecordingCommand => execute_recording args
  | KeyboardCommand => execute_keyboard args
  | StartOnLidOpenCommand => execute_lid args
  | UsbChargeCommand => execute_usb args
  | HelpCommand => execute_help commands args
  end.

(** *** [main] *)

Definition registered : command_map :=
  map_assign "help" HelpCommand
    (map_assign "usb-charge" UsbChargeCommand
      (map_assign "start-on-lid-open" StartOnLidOpenCommand
        (map_assign "kbd" KeyboardCommand
          (map_assign "record" RecordingCommand
            (map_assign "perf" PerformanceCommand
              (map_assign "fan" FanCommand
                (map_assign "power" PowerCommand [] ))))))).

(** [commands["help"]->execute({})]. *)
Definition run_help (commands : command_map) : M bool :=
  match map_find "help" commands with
  | Some cmd => execute commands cmd []
  | None => ret false
  end.

(** [argv] is the whole vector, program name first; the result is the
    exit status. *)
Definition main (argv : list string) : M Z :=
  let commands := registered in
  match argv with
  | _ :: command :: rest =>
      let args := command :: rest in
      match map_find command commands with
      | None =>
          print_err ("Error: Unknown command '" +:+ command +:+ "'" +:+ endl) ;;
          run_help commands ;;
          ret 1
      | Some cmd =>
          ok <- execute commands cmd args ;;
          ret (if ok then 0 else 1)
      end
  | _ => run_help commands ;; ret 1
  end.

End Handlers.

(** The process: static initialisation, then [main]. *)
Definition program (argv : list string) : M Z :=
  g <- static_init ;; main g argv.

(** ** Vocabulary of the specification *)

(** The world after the system calls [evs], nothing else changed. *)
Definition add_trace (w : world) (evs : list syscall) : world :=
  {| files := files w; dirs := dirs w; cout := cout w; cerr := cerr w;
     trace := trace w ++ evs |}.

Definition add_cerr (w : world) (s : string) : world :=
  {| files := files w; dirs := dirs w; cout := cout w; cerr := cerr w +:+ s;
     trace := trace w |}.

Definition add_cout (w : world) (s : string) : world :=
  {| files := files w; dirs := dirs w; cout := cout w +:+ s; cerr := cerr w;
     trace := trace w |}.

(** The world with the file at [path] replaced by [f]. *)
Definition with_file (w : world) (path : string) (f : file) : world :=
  {| files := <[path := f]> (files w); dirs := dirs w; cout := cout w;
     cerr := cerr w; trace := trace w |}.

(** The path exists and is readable, as [access(path, R_OK)] sees it. *)
Definition readable (w : world) (path : string) : bool :=
  match files w !! path with
  | Some f => f_access_r f
  | None => false
  end.

(** A write to [path] goes through: the permission check passes and the
    open succeeds. *)
Definition can_write (w : world) (path : string) : bool :=
  match files w !! path with
  | Some f => f_access_w f && f_open_w f
  | None => false
  end.

(** A write to the opened file at [path] is taken. *)
Definition write_ok (w : world) (path : string) : bool :=
  match files w !! path with
  | Some f => f_write_ok f
  | None => false
  end.

(** What the file at [path] holds. *)
Definition contents (w : world) (path : string) : option string :=
  f_data <$> files w !! path.

(** System calls that belong to a write: the permission check for
    writing, the open for writing, the write itself. *)
Definition is_write_event (e : syscall) : bool :=
  match e with
  | SysAccess _ W_OK | SysOpenWrite _ | SysWrite _ _ => true
  | _ => false
  end.

(** The system call names [path]. *)
Definition touches (path : string) (e : syscall) : bool :=
  match e with
  | SysAccess p _ | SysOpendir p | SysReaddir p | SysClosedir p
  | SysOpenRead p | SysOpenWrite p | SysWrite p _ => String.eqb p path
  end.

(** [w'] comes from [w] without any write: the files are the same and
    the system calls added to the trace contain no write event. *)
Definition no_write (w w' : world) : Prop :=
  files w' = files w /\
  exists evs, trace w' = trace w ++ evs /\
              forallb (fun e => negb (is_write_event e)) evs = true.

(** An entry of the driver directory that [detect_feature_path] takes:
    its name begins with "SAM" and the attribute below it is readable. *)
Definition qualifies (w : world) (feature_name d_name : string) : bool :=
  String.prefix "SAM" d_name && readable w (nested_path d_name feature_name).

Fixpoint all_chars (p : ascii -> bool) (s : string) : bool :=
  match s with
  | String c r => p c && all_chars p r
  | EmptyString => true
  end.

(** The number a string of decimal digits denotes, by position. *)
Fixpoint number_of (ds : string) : Z :=
  match ds with
  | String c r => digit_value c * 10 ^ Z.of_nat (String.length r) + number_of r
  | EmptyString => 0
  end.

Definition digit_string (ds : string) : bool :=
  negb (String.eqb ds EmptyString) && all_chars isdigit ds.

(** A numeric representation of an integer: an optional sign followed by
    decimal digits and nothing else. [Some v] gives the integer. *)
Definition integer_literal (s : string) : option Z :=
  match s with
  | String c ds =>
      if Ascii.eqb c "-" then
        if digit_string ds then Some (- number_of ds) else None
      else if Ascii.eqb c "+" then
        if digit_string ds then Some (number_of ds) else None
      else if digit_string s then Some (number_of s) else None
  | EmptyString => None
  end.

Definition no_digit_ahead (rest : string) : Prop :=
  match rest with
  | String c _ => isdigit c = false
  | EmptyString => True
  end.

(** The string starts, after white space, with a numeric representation
    of [v] that ends where the digits end. *)
Definition numeric_prefix (s : string) (v : Z) : Prop :=
  exists ws lit rest,
    s = ws +:+ lit +:+ rest /\
    all_chars isspace ws = true /\
    integer_literal lit = Some v /\
    no_digit_ahead rest.

(** The value fits [int]. *)
Definition in_int (v : Z) : bool := (INT_MIN <=? v) && (v <=? INT_MAX).

(** [pat] occurs in [s]. *)
Definition substring (pat s : string) : Prop :=
  exists pre post, s = pre +:+ pat +:+ post.

(** The three on/off features, and all the features with a [set]. *)
Inductive onoff_feature : Type := FRecord | FLid | FUsb.

Inductive settable : Type :=
  | SPower | SPerf | SKbd | SOnOff (f : onoff_feature).

Definition onoff_path (g : globals) (f : onoff_feature) : string :=
  match f with
  | FRecord => ALLOW_RECORDING_PATH g
  | FLid => START_ON_LID_OPEN_PATH g
  | FUsb => USB_CHARGE_PATH g
  end.

Definition onoff_set (g : globals) (f : onoff_feature) : string -> M bool :=
  match f with
  | FRecord => set_recording_status g
  | FLid => set_status_lid g
  | FUsb => set_status_usb g
  end.

Definition set_operation (g : globals) (f : settable) : string -> M bool :=
  match f with
  | SPower => set_power
  | SPerf => set_performance_mode
  | SKbd => set_keyboard_backlight
  | SOnOff f => onoff_set g f
  end.

Definition backing_file (g : globals) (f : settable) : string :=
  match f with
  | SPower => POWER_PATH
  | SPerf => PLATFORM_PROFILE_PATH
  | SKbd => KBD_BACKLIGHT_PATH
  | SOnOff f => onoff_path g f
  end.

(** The integer domains in the words of the table of handlers: the
    argument is an integer from [lo] to [hi]; a non-numeric argument is
    outside. *)
Definition integer_in_range (lo hi : Z) (value : string) : bool :=
  match integer_literal value with
  | Some v => (lo <=? v) && (v <=? hi)
  | None => false
  end.

(** The values a [set] handler lets through to the write: for [power]
    and [kbd] an argument that begins, after optional white space, with
    a numeral of a value in range; one of the eight on/off tokens; for
    [perf] a mode that occurs in the line read from a choices file that
    opens. *)
Definition accepted_domain (f : settable) (w : world) (value : string) : Prop :=
  match f with
  | SPower => exists v, numeric_prefix value v /\ 0 <= v <= 100
  | SKbd => exists v, numeric_prefix value v /\ 0 <= v <= 3
  | SOnOff _ =>
      value ∈ ["0"; "off"; "false"; "no"; "1"; "on"; "true"; "yes"]
  | SPerf =>
      exists c, files w !! PLATFORM_PROFILE_CHOICES_PATH = Some c /\
                f_open_r c = true /\ substring value (getline c)
  end.

(** The listing [help] prints with the eight commands registered. *)
Definition help_header : string :=
  "Usage: samsung-cli <command> [<args>]" +:+ nl +:+
  "CLI tool to control Samsung Galaxy Book features." +:+ nl +:+ nl +:+
  "Commands:" +:+ nl.

Fixpoint help_lines (cmds : list Command) : string :=
  match cmds with
  | [] => EmptyString
  | c :: rest => get_help c +:+ nl +:+ help_lines rest
  end.

Definition all_commands : list Command :=
  [FanCommand; HelpCommand; KeyboardCommand; PerformanceCommand;
   PowerCommand; RecordingCommand; StartOnLidOpenCommand; UsbChargeCommand].

Definition help_text : string := help_header +:+ help_lines all_commands.

(** The names [main] registers, each with its handler. *)
Definition command_table : list (string * Command) :=
  [("power", PowerCommand); ("fan", FanCommand); ("perf", PerformanceCommand);
   ("record", RecordingCommand); ("kbd", KeyboardCommand);
   ("start-on-lid-open", StartOnLidOpenCommand);
   ("usb-charge", UsbChargeCommand); ("help", HelpCommand)].

(** A writable and readable regular file with the given contents. *)
Definition plain_file (data : string) : file :=
  mkFile data true true true true true true.

(** An attribute that opens for writing and then refuses what is
    written. *)
Definition refusing_file (data : string) : file :=
  mkFile data true true true true true false.

Definition sample_globals : globals :=
  mkGlobals "/dev/samsung-galaxybook/allow_recording"
            "/dev/samsung-galaxybook/start_on_lid_open"
            "/dev/samsung-galaxybook/usb_charge".

(** Sample worlds: the udev rule installed; only the platform driver
    bound; neither. *)
Definition world_udev : world :=
  mkWorld {[ UDEV_DIR +:+ "usb_charge" := plain_file "1" ]} ∅ "" "" [].

Definition world_driver : world :=
  mkWorld {[ nested_path "SAM0429:00" "usb_charge" := plain_file "1" ]}
          {[ DRIVER_DIR := ["."; ".."; "SAM0429:00"; "bind"] ]} "" "" [].

Definition world_bare : world :=
  mkWorld ∅ {[ DRIVER_DIR := ["."; ".."; "bind"] ]} "" "" [].

(** A world with the charge threshold file only. *)
Definition world_power (data : string) : world :=
  mkWorld {[ POWER_PATH := plain_file data ]} ∅ "" "" [].

(** A world with the three on/off attributes at the udev paths. *)
Definition world_onoff : world :=
  mkWorld (<[ ALLOW_RECORDING_PATH sample_globals := plain_file "1" ]>
          (<[ START_ON_LID_OPEN_PATH sample_globals := plain_file "0" ]>
          (<[ USB_CHARGE_PATH sample_globals := plain_file "0" ]> ∅)))
          ∅ "" "" [].

(** A world whose charge threshold file refuses what is written. *)
Definition world_refusing : world :=
  mkWorld {[ POWER_PATH := refusing_file "80" ]} ∅ "" "" [].

(** A world with the keyboard backlight file only. *)
Definition world_kbd (data : string) : world :=
  mkWorld {[ KBD_BACKLIGHT_PATH := plain_file data ]} ∅ "" "" [].

(** A world with the platform profile and its choices. *)
Definition world_perf : world :=
  mkWorld (<[ PLATFORM_PROFILE_PATH := plain_file ("balanced" +:+ nl) ]>
          (<[ PLATFORM_PROFILE_CHOICES_PATH :=
                plain_file ("low-power balanced performance" +:+ nl) ]> ∅))
          ∅ "" "" [].

(** ** Vocabulary for the handlers as a whole *)

(** How every handler reports a failure: an error text is appended to
    [cerr]; the files, the directories and [cout] are as before. *)
Definition reported_failure (w w' : world) : Prop :=
  files w' = files w /\ dirs w' = dirs w /\ cout w' = cout w /\
  exists msg, msg <> EmptyString /\ cerr w' = cerr w +:+ msg.

(** The outcome of a handler that keeps its streams apart: a success
    writes nothing to [cerr]; a failure is a reported failure. *)
Definition tidy_outcome (w : world) (r : bool * world) : Prop :=
  if fst r then cerr (snd r) = cerr w /\ dirs (snd r) = dirs w
  else reported_failure w (snd r).

(** The [read] method of each class, the [set] method of those that have
    one. *)
Definition read_handler (g : globals) (cmd : Command) : option (M bool) :=
  match cmd with
  | PowerCommand => Some read_power
  | FanCommand => Some read_fan
  | PerformanceCommand => Some read_performance_mode
  | RecordingCommand => Some (read_recording_status g)
  | KeyboardCommand => Some read_keyboard_backlight
  | StartOnLidOpenCommand => Some (read_status_lid g)
  | UsbChargeCommand => Some (read_status_usb g)
  | HelpCommand => None
  end.

Definition set_handler (g : globals) (cmd : Command)
  : option (string -> M bool) :=
  match cmd with
  | PowerCommand => Some set_power
  | PerformanceCommand => Some set_performance_mode
  | RecordingCommand => Some (set_recording_status g)
  | KeyboardCommand => Some set_keyboard_backlight
  | StartOnLidOpenCommand => Some (set_status_lid g)
  | UsbChargeCommand => Some (set_status_usb g)
  | FanCommand | HelpCommand => None
  end.

(** The subcommands a class accepts; [help] takes anything. *)
Definition known_subcommand (cmd : Command) (sub : string) : bool :=
  match cmd with
  | HelpCommand => true
  | FanCommand => String.eqb sub "read"
  | PerformanceCommand =>
      String.eqb sub "read" || String.eqb sub "set" || String.eqb sub "list"
  | _ => String.eqb sub "read" || String.eqb sub "set"
  end.

(** An argument vector a feature handler turns down before doing
    anything: no subcommand, a subcommand it does not have, or [set]
    without a value. *)
Definition malformed (cmd : Command) (args : list string) : bool :=
  match cmd with
  | HelpCommand => false
  | _ =>
      match args with
      | _ :: sub :: rest =>
          negb (known_subcommand cmd sub)
          || (String.eqb sub "set" && match rest with [] => true | _ => false end)
      | _ => true
      end
  end.

(** The vector asks for a [set] with a value. *)
Definition is_set_call (args : list string) : bool :=
  match args with
  | _ :: sub :: _ :: _ => String.eqb sub "set"
  | _ => false
  end.

(** The five read-outs that print the line as it is, with the file they
    read and the text they print for a line. *)
Inductive reading : Type :=
  | RdPower | RdFan | RdPerf | RdPerfList | RdKbd.

Definition reading_op (rd : reading) : M bool :=
  match rd with
  | RdPower => read_power
  | RdFan => read_fan
  | RdPerf => read_performance_mode
  | RdPerfList => list_performance_modes
  | RdKbd => read_keyboard_backlight
  end.

Definition reading_path (rd : reading) : string :=
  match rd with
  | RdPower => POWER_PATH
  | RdFan => FAN_PATH
  | RdPerf => PLATFORM_PROFILE_PATH
  | RdPerfList => PLATFORM_PROFILE_CHOICES_PATH
  | RdKbd => KBD_BACKLIGHT_PATH
  end.

Definition reading_text (rd : reading) (line : string) : string :=
  match rd with
  | RdPower => "Current charge threshold: " +:+ line +:+ "%" +:+ endl
  | RdFan => "Current fan speed: " +:+ line +:+ " RPM" +:+ endl
  | RdPerf => "Current performance mode: " +:+ line +:+ endl
  | RdPerfList => "Available performance modes: " +:+ line +:+ endl
  | RdKbd => "Keyboard backlight level: " +:+ line +:+ endl
  end.

(** The read-out of an on/off feature and the label it prints. *)
Definition onoff_read (g : globals) (f : onoff_feature) : M bool :=
  match f with
  | FRecord => read_recording_status g
  | FLid => read_status_lid g
  | FUsb => read_status_usb g
  end.

Definition onoff_label (f : onoff_feature) : string :=
  match f with
  | FRecord => "Recording permission: "
  | FLid => "Start on lid open: "
  | FUsb => "USB charge: "
  end.

(** The answer of [access(path, W_OK)]. *)
Definition writable (w : world) (path : string) : bool :=
  match files w !! path with
  | Some f => f_access_w f
  | None => false
  end.

(** What the open of [path] for reading gives, and the error text of
    [read_file] when it gives nothing. *)
Definition opens (w : world) (path : string) : option file :=
  match files w !! path with
  | Some f => if f_open_r f then Some f else None
  | None => None
  end.

Definition open_error (path : string) : string :=
  "Error: Could not open " +:+ path +:+ endl.

(** The path [detect_feature_path] settles on, as a function of the
    files and directories alone. *)
Definition resolved (w : world) (feature_name : string) : string :=
  if readable w (UDEV_DIR +:+ feature_name) then UDEV_DIR +:+ feature_name
  else
    match dirs w !! DRIVER_DIR with
    | Some entries =>
        match List.find (qualifies w feature_name) entries with
        | Some d_name => nested_path d_name feature_name
        | None => ACPI_DIR +:+ feature_name
        end
    | None => ACPI_DIR +:+ feature_name
    end.

Definition is_closedir (e : syscall) : bool :=
  match e with SysClosedir _ => true | _ => false end.

Definition is_opendir (e : syscall) : bool :=
  match e with SysOpendir _ => true | _ => false end.

(** The keys of a map are strictly increasing. *)
Fixpoint keys_increasing (m : command_map) : bool :=
  match m with
  | (k1, _) :: (((k2, _) :: _) as rest) => String.ltb k1 k2 && keys_increasing rest
  | _ => true
  end.

(** No line break in the string. *)
Definition one_line (s : string) : bool :=
  all_chars (fun c => negb (code c =? 10)) s.

(** ** Properties *)

Example stoi_85 : stoi "85" = StoiOk 85. Proof. reflexivity. Qed.
Example stoi_plus : stoi " +085" = StoiOk 85. Proof. reflexivity. Qed.
Example stoi_neg : stoi "-1" = StoiOk (-1). Proof. reflexivity. Qed.
Example stoi_abc : stoi "abc" = StoiInvalidArgument. Proof. reflexivity. Qed.
Example stoi_big : stoi "99999999999" = StoiOutOfRange. Proof. reflexivity. Qed.
Example to_string_85 : to_string 85 = "85". Proof. reflexivity. Qed.
Example to_string_min : to_string INT_MIN = "-2147483648". Proof. reflexivity. Qed.
Example find_bal : find "low-power balanced performance" "balanced" = Some 10%nat.
Proof. reflexivity. Qed.
Example find_none : find "low-power balanced" "turbo" = None.
Proof. reflexivity. Qed.


(** *** Characters *)

Lemma code_inj (c1 c2 : ascii) : code c1 = code c2 -> c1 = c2.
Proof.
  unfold code. intros H. apply Nat2Z.inj in H.
  rewrite <- (ascii_nat_embedding c1), <- (ascii_nat_embedding c2).
  now f_equal.
Qed.

Lemma code_eqb (c1 c2 : ascii) : (code c1 =? code c2) = Ascii.eqb c1 c2.
Proof.
  destruct (Ascii.eqb_spec c1 c2) as [->|Hne].
  - apply Z.eqb_refl.
  - apply Z.eqb_neq. intros H. apply Hne, code_inj, H.
Qed.

(** [strncmp(d_name, "SAM", 3) == 0] says that the name begins with "SAM". *)
Lemma strncmp_SAM (d_name : string) :
  (strncmp d_name "SAM" 3 =? 0) = String.prefix "SAM" d_name.
Proof.
  assert (Hstep : forall c k (b : bool) (z : Z),
             code k <> 0 ->
             ((if code c =? code k then (if code c =? 0 then 0 else z) else code c - code k) =? 0)
             = (if ascii_dec k c then (z =? 0) else false)).
  { intros c k b z Hk. rewrite code_eqb.
    destruct (Ascii.eqb_spec c k) as [->|Hne].
    - destruct (ascii_dec k k) as [_|Hn]; [|contradiction].
      apply Z.eqb_neq in Hk. now rewrite Hk.
    - destruct (ascii_dec k c) as [->|_]; [contradiction|].
      apply Z.eqb_neq. intros H. apply Hne, code_inj. lia. }
  destruct d_name as [|c1 [|c2 [|c3 r]]]; cbn [strncmp String.prefix].
  - reflexivity.
  - rewrite (Hstep c1 "S"%char true) by discriminate.
    destruct (ascii_dec "S" c1); reflexivity.
  - rewrite (Hstep c1 "S"%char true) by discriminate.
    destruct (ascii_dec "S" c1); [|reflexivity].
    rewrite (Hstep c2 "A"%char true) by discriminate.
    destruct (ascii_dec "A" c2); reflexivity.
  - rewrite (Hstep c1 "S"%char true) by discriminate.
    destruct (ascii_dec "S" c1); [|reflexivity].
    rewrite (Hstep c2 "A"%char true) by discriminate.
    destruct (ascii_dec "A" c2); [|reflexivity].
    rewrite (Hstep c3 "M"%char true) by discriminate.
    destruct (ascii_dec "M" c3); [|reflexivity].
    destruct r; reflexivity.
Qed.

(** *** Worlds and traces *)

Lemma add_trace_app (w : world) (e1 e2 : list syscall) :
  add_trace (add_trace w e1) e2 = add_trace w (e1 ++ e2).
Proof. unfold add_trace. cbn. now rewrite app_assoc. Qed.

Lemma readable_add_trace (w : world) (evs : list syscall) (p : string) :
  readable (add_trace w evs) p = readable w p.
Proof. reflexivity. Qed.

Lemma access_run (path : string) (mode : access_mode) (w : world) :
  access path mode w =
  (match files w !! path with
   | Some f => match mode with R_OK => f_access_r f | W_OK => f_access_w f end
   | None => false
   end, add_trace w [SysAccess path mode]).
Proof. reflexivity. Qed.

Lemma access_R_run (path : string) (w : world) :
  access path R_OK w = (readable w path, add_trace w [SysAccess path R_OK]).
Proof. rewrite access_run. unfold readable. now destruct (files w !! path). Qed.

Lemma readdir_run (p : string) (w : world) :
  readdir p w = (tt, add_trace w [SysReaddir p]).
Proof. reflexivity. Qed.

Lemma closedir_run (p : string) (w : world) :
  closedir p w = (tt, add_trace w [SysClosedir p]).
Proof. reflexivity. Qed.

Lemma opendir_run (p : string) (w : world) :
  opendir p w = (dirs w !! p, add_trace w [SysOpendir p]).
Proof. reflexivity. Qed.

(** *** The resolver *)

Lemma nested_not_acpi (d_name a b : string) :
  nested_path d_name a <> ACPI_DIR +:+ b.
Proof. unfold nested_path, ACPI_DIR. cbn. discriminate. Qed.

Lemma udev_not_acpi (a b : string) : UDEV_DIR +:+ a <> ACPI_DIR +:+ b.
Proof. unfold UDEV_DIR, ACPI_DIR. cbn. discriminate. Qed.

Lemma driver_dir_not_acpi (b : string) : DRIVER_DIR <> ACPI_DIR +:+ b.
Proof. unfold DRIVER_DIR, ACPI_DIR. cbn. discriminate. Qed.

(** A list with an element that satisfies [p] splits at the first one. *)
Lemma first_split {A : Type} (p : A -> bool) (l : list A) :
  existsb p l = true ->
  exists pre x post,
    l = pre ++ x :: post /\ forallb (fun e => negb (p e)) pre = true /\ p x = true.
Proof.
  induction l as [|a l IH]; [discriminate|].
  cbn [existsb]. destruct (p a) eqn:Ha.
  - intros _. now exists [], a, l.
  - cbn [orb]. intros H. destruct (IH H) as (pre & x & post & -> & Hpre & Hx).
    exists (a :: pre), x, post. cbn [forallb]. now rewrite Ha, Hpre.
Qed.

(** The loop stops at the first entry that qualifies. *)
Lemma scan_driver_dir_first (name d_name : string) (pre post : list string) :
  forall w,
    forallb (fun e => negb (qualifies w name e)) pre = true ->
    qualifies w name d_name = true ->
    exists evs,
      scan_driver_dir name (pre ++ d_name :: post) w
        = (Some (nested_path d_name name), add_trace w evs) /\
      forallb (fun e => negb (touches (ACPI_DIR +:+ name) e)) evs = true.
Proof.
  assert (Hrd : touches (ACPI_DIR +:+ name) (SysReaddir DRIVER_DIR) = false).
  { apply String.eqb_neq, driver_dir_not_acpi. }
  assert (Hcl : touches (ACPI_DIR +:+ name) (SysClosedir DRIVER_DIR) = false).
  { apply String.eqb_neq, driver_dir_not_acpi. }
  assert (Hac : forall d, touches (ACPI_DIR +:+ name) (SysAccess (nested_path d name) R_OK) = false).
  { intros d. apply String.eqb_neq, nested_not_acpi. }
  induction pre as [|e pre IH]; intros w Hpre Hd.
  - unfold qualifies in Hd. apply andb_true_iff in Hd as [Hp Hr].
    exists [SysReaddir DRIVER_DIR; SysAccess (nested_path d_name name) R_OK;
            SysClosedir DRIVER_DIR].
    split.
    + cbn [app scan_driver_dir]. unfold bind, ret.
      rewrite readdir_run, strncmp_SAM, Hp, access_R_run, readable_add_trace, Hr.
      now rewrite closedir_run, !add_trace_app.
    + cbn [forallb]. now rewrite Hrd, Hac, Hcl.
  - cbn [forallb] in Hpre. apply andb_true_iff in Hpre as [He Hpre].
    apply negb_true_iff in He.
    set (w1 := add_trace w [SysReaddir DRIVER_DIR]).
    destruct (String.prefix "SAM" e) eqn:Hp.
    + set (w2 := add_trace w1 [SysAccess (nested_path e name) R_OK]).
      destruct (IH w2 Hpre Hd) as (evs & Hrun & Hevs).
      exists ([SysReaddir DRIVER_DIR; SysAccess (nested_path e name) R_OK] ++ evs).
      split.
      * cbn [app scan_driver_dir] in *. unfold bind.
        rewrite readdir_run, strncmp_SAM, Hp, access_R_run, readable_add_trace.
        unfold qualifies in He. rewrite Hp in He. cbn in He. rewrite He.
        fold w1. fold w2. rewrite Hrun.
        unfold w2, w1. now rewrite !add_trace_app.
      * cbn [forallb app]. now rewrite Hrd, Hac, Hevs.
    + destruct (IH w1 Hpre Hd) as (evs & Hrun & Hevs).
      exists ([SysReaddir DRIVER_DIR] ++ evs).
      split.
      * cbn [app scan_driver_dir] in *. unfold bind.
        rewrite readdir_run, strncmp_SAM, Hp.
        fold w1. rewrite Hrun.
        unfold w1. now rewrite !add_trace_app.
      * cbn [forallb app]. now rewrite Hrd, Hevs.
Qed.

(** With no entry that qualifies the loop runs to the end of the directory. *)
Lemma scan_driver_dir_none (name : string) (entries : list string) :
  forall w,
    forallb (fun e => negb (qualifies w name e)) entries = true ->
    exists evs,
      scan_driver_dir name entries w = (None, add_trace w evs) /\
      forallb (fun e => negb (touches (ACPI_DIR +:+ name) e)) evs = true.
Proof.
  assert (Hrd : touches (ACPI_DIR +:+ name) (SysReaddir DRIVER_DIR) = false).
  { apply String.eqb_neq, driver_dir_not_acpi. }
  assert (Hac : forall d, touches (ACPI_DIR +:+ name) (SysAccess (nested_path d name) R_OK) = false).
  { intros d. apply String.eqb_neq, nested_not_acpi. }
  induction entries as [|e entries IH]; intros w Hall.
  - exists [SysReaddir DRIVER_DIR]. split; [reflexivity|].
    cbn [forallb]. now rewrite Hrd.
  - cbn [forallb] in Hall. apply andb_true_iff in Hall as [He Hall].
    apply negb_true_iff in He.
    set (w1 := add_trace w [SysReaddir DRIVER_DIR]).
    destruct (String.prefix "SAM" e) eqn:Hp.
    + set (w2 := add_trace w1 [SysAccess (nested_path e name) R_OK]).
      destruct (IH w2 Hall) as (evs & Hrun & Hevs).
      exists ([SysReaddir DRIVER_DIR; SysAccess (nested_path e name) R_OK] ++ evs).
      split.
      * cbn [scan_driver_dir]. unfold bind.
        rewrite readdir_run, strncmp_SAM, Hp, access_R_run, readable_add_trace.
        unfold qualifies in He. rewrite Hp in He. cbn in He. rewrite He.
        fold w1. fold w2. rewrite Hrun.
        unfold w2, w1. now rewrite !add_trace_app.
      * cbn [forallb app]. now rewrite Hrd, Hac, Hevs.
    + destruct (IH w1 Hall) as (evs & Hrun & Hevs).
      exists ([SysReaddir DRIVER_DIR] ++ evs).
      split.
      * cbn [scan_driver_dir]. unfold bind.
        rewrite readdir_run, strncmp_SAM, Hp.
        fold w1. rewrite Hrun.
        unfold w1. now rewrite !add_trace_app.
      * cbn [forallb app]. now rewrite Hrd, Hevs.
Qed.

(** C1. Path resolution, for every feature name: (1) when the udev-style
    path "/dev/samsung-galaxybook/<feature_name>" exists and is readable
    it is returned, and the only system call made is the [access] on it,
    so the platform-driver directory is not probed; (2) otherwise, when
    the driver directory opens and lists an entry whose name begins with
    "SAM" and below which the attribute is readable, the nested path of
    the first such entry (in [readdir] order) is returned, so the result
    is the nested path of an entry that qualifies; (3) otherwise
    (the directory does not open, or no entry qualifies) the fallback
    "/sys/bus/acpi/devices/SCAI:00/<feature_name>" is returned and no
    system call made on the way names that path. *)
Theorem detect_feature_path_resolution (feature_name : string) (w : world) :
  let udev_path := UDEV_DIR +:+ feature_name in
  let fallback := ACPI_DIR +:+ feature_name in
  (readable w udev_path = true ->
   detect_feature_path feature_name w
     = (udev_path, add_trace w [SysAccess udev_path R_OK]))
  /\
  (readable w udev_path = false ->
   forall pre d_name post,
     dirs w !! DRIVER_DIR = Some (pre ++ d_name :: post) ->
     forallb (fun e => negb (qualifies w feature_name e)) pre = true ->
     qualifies w feature_name d_name = true ->
     fst (detect_feature_path feature_name w) = nested_path d_name feature_name)
  /\
  (readable w udev_path = false ->
   forall entries,
     dirs w !! DRIVER_DIR = Some entries ->
     existsb (qualifies w feature_name) entries = true ->
     exists d_name,
       d_name ∈ entries /\ qualifies w feature_name d_name = true /\
       fst (detect_feature_path feature_name w) = nested_path d_name feature_name)
  /\
  (readable w udev_path = false ->
   match dirs w !! DRIVER_DIR with
   | Some entries =>
       forallb (fun e => negb (qualifies w feature_name e)) entries = true
   | None => True
   end ->
   exists evs,
     detect_feature_path feature_name w = (fallback, add_trace w evs) /\
     forallb (fun e => negb (touches fallback e)) evs = true).
Proof.
  intros udev_path fallback.
  assert (Hu : touches fallback (SysAccess udev_path R_OK) = false).
  { apply String.eqb_neq, udev_not_acpi. }
  assert (Ho : touches fallback (SysOpendir DRIVER_DIR) = false).
  { apply String.eqb_neq, driver_dir_not_acpi. }
  assert (Hc : touches fallback (SysClosedir DRIVER_DIR) = false).
  { apply String.eqb_neq, driver_dir_not_acpi. }
  assert (Hfirst : readable w udev_path = false ->
            forall pre d_name post,
              dirs w !! DRIVER_DIR = Some (pre ++ d_name :: post) ->
              forallb (fun e => negb (qualifies w feature_name e)) pre = true ->
              qualifies w feature_name d_name = true ->
              fst (detect_feature_path feature_name w)
              = nested_path d_name feature_name).
  { intros Hr pre d_name post Hdir Hpre Hd.
    unfold detect_feature_path, bind, ret. fold udev_path.
    rewrite access_R_run, Hr, opendir_run.
    change (dirs (add_trace w [SysAccess udev_path R_OK])) with (dirs w).
    rewrite Hdir.
    destruct (scan_driver_dir_first feature_name d_name pre post
                (add_trace (add_trace w [SysAccess udev_path R_OK])
                           [SysOpendir DRIVER_DIR]) Hpre Hd) as (evs & Hrun & _).
    now rewrite Hrun. }
  split; [|split; [exact Hfirst|split]].
  - intros Hr. unfold detect_feature_path, bind, ret.
    fold udev_path. now rewrite access_R_run, Hr.
  - intros Hr entries Hdir Hex.
    destruct (first_split _ _ Hex) as (pre & d_name & post & -> & Hpre & Hd).
    exists d_name. split; [apply elem_of_app; right; apply list_elem_of_here|].
    split; [exact Hd|].
    now apply (Hfirst Hr pre d_name post).
  - intros Hr Hdir.
    unfold detect_feature_path, bind, ret. fold udev_path fallback.
    rewrite access_R_run, Hr, opendir_run.
    change (dirs (add_trace w [SysAccess udev_path R_OK])) with (dirs w).
    destruct (dirs w !! DRIVER_DIR) as [entries|].
    + destruct (scan_driver_dir_none feature_name entries
                  (add_trace (add_trace w [SysAccess udev_path R_OK])
                             [SysOpendir DRIVER_DIR]) Hdir) as (evs & Hrun & Hevs).
      rewrite Hrun, closedir_run, !add_trace_app.
      eexists. split; [reflexivity|].
      cbn [app forallb]. fold fallback in Hevs.
      rewrite Hu, Ho, forallb_app, Hevs. cbn [forallb]. now rewrite Hc.
    + rewrite !add_trace_app. eexists. split; [reflexivity|].
      cbn [app forallb]. now rewrite Hu, Ho.
Qed.

Lemma detect_feature_path_resolution_witness :
  fst (detect_feature_path "usb_charge" world_udev)
    = "/dev/samsung-galaxybook/usb_charge"
  /\ fst (detect_feature_path "usb_charge" world_driver)
    = "/sys/bus/platform/drivers/samsung-galaxybook/SAM0429:00/usb_charge"
  /\ fst (detect_feature_path "usb_charge" world_bare)
    = "/sys/bus/acpi/devices/SCAI:00/usb_charge".
Proof.
  split; [|split].
  - rewrite (proj1 (detect_feature_path_resolution "usb_charge" world_udev));
      [reflexivity | vm_compute; reflexivity].
  - apply (proj1 (proj2 (detect_feature_path_resolution "usb_charge" world_driver))
             ltac:(vm_compute; reflexivity) ["."; ".."] "SAM0429:00" ["bind"]);
      vm_compute; reflexivity.
  - destruct (proj2 (proj2 (proj2 (detect_feature_path_resolution "usb_charge" world_bare)))
         ltac:(vm_compute; reflexivity) ltac:(vm_compute; reflexivity))
      as (evs & Hrun & _).
    rewrite Hrun. reflexivity.
Defined.

(** *** [file_ops] *)

Lemma print_err_run (s : string) (w : world) : print_err s w = (tt, add_cerr w s).
Proof. reflexivity. Qed.

Lemma print_out_run (s : string) (w : world) : print_out s w = (tt, add_cout w s).
Proof. reflexivity. Qed.

Lemma read_file_run (path value : string) (w : world) :
  file_ops.read_file path value w =
  match files w !! path with
  | Some f =>
      if f_open_r f then ((true, getline f), add_trace w [SysOpenRead path])
      else ((false, value),
            add_cerr (add_trace w [SysOpenRead path])
                     ("Error: Could not open " +:+ path +:+ endl))
  | None => ((false, value),
             add_cerr (add_trace w [SysOpenRead path])
                      ("Error: Could not open " +:+ path +:+ endl))
  end.
Proof.
  unfold file_ops.read_file, ifstream_open, bind, ret, get_file, log. cbn.
  destruct (files w !! path) as [f|]; [destruct (f_open_r f)|]; reflexivity.
Qed.

Lemma write_file_run (path value : string) (w : world) :
  file_ops.write_file path value w =
  match files w !! path with
  | Some f =>
      if f_access_w f then
        if f_open_w f then
          (true, add_trace (with_file w path
                              (set_data f (if f_write_ok f then value
                                           else EmptyString)))
                   [SysAccess path W_OK; SysOpenWrite path; SysWrite path value])
        else
          (false, add_cerr (add_trace w [SysAccess path W_OK; SysOpenWrite path])
                    ("Error: Could not write to " +:+ path +:+ endl))
      else
        (false, add_cerr (add_trace w [SysAccess path W_OK])
                  ("Error: Permission denied. Run with sudo." +:+ endl))
  | None =>
      (false, add_cerr (add_trace w [SysAccess path W_OK])
                ("Error: Permission denied. Run with sudo." +:+ endl))
  end.
Proof.
  unfold file_ops.write_file, file_ops.check_permissions, bind, ret.
  rewrite access_run.
  destruct (files w !! path) as [f|] eqn:Hf; [destruct (f_access_w f)|];
    try reflexivity.
  cbn [negb]. unfold ofstream_open, ofstream_write, bind, ret, get_file, put_file, log.
  cbn [files dirs cout cerr trace add_trace]. rewrite Hf.
  destruct (f_open_w f); cbn [negb files dirs cout cerr trace].
  - rewrite lookup_insert_eq. cbn [f_write_ok set_data].
    destruct (f_write_ok f); cbn [files dirs cout cerr trace];
      unfold add_trace, with_file; cbn [files dirs cout cerr trace].
    + rewrite insert_insert_eq, <- !app_assoc. reflexivity.
    + rewrite <- !app_assoc. reflexivity.
  - unfold print_err, add_cerr, add_trace. cbn [files dirs cout cerr trace].
    rewrite <- !app_assoc. reflexivity.
Qed.

Lemma write_file_fst (path value : string) (w : world) :
  fst (file_ops.write_file path value w) = can_write w path.
Proof.
  rewrite write_file_run. unfold can_write.
  destruct (files w !! path) as [f|]; [|reflexivity].
  destruct (f_access_w f), (f_open_w f); reflexivity.
Qed.

(** When [write_file] returns true it has handed exactly [value] to the
    write; the file holds it when the write was taken. *)
Lemma write_file_stores (path value : string) (w w' : world) :
  file_ops.write_file path value w = (true, w') ->
  trace w' = trace w ++ [SysAccess path W_OK; SysOpenWrite path; SysWrite path value] /\
  (write_ok w path = true -> contents w' path = Some value).
Proof.
  rewrite write_file_run. unfold write_ok.
  destruct (files w !! path) as [f|]; [|discriminate].
  destruct (f_access_w f); [|discriminate].
  destruct (f_open_w f); [|discriminate].
  intros [= <-]. split; [reflexivity|]. intros ->.
  unfold contents, with_file. cbn. now rewrite lookup_insert_eq.
Qed.

(** A write that is not attempted or does not go through leaves every
    file as it was. *)
Lemma write_file_fails (path value : string) (w w' : world) :
  file_ops.write_file path value w = (false, w') -> files w' = files w.
Proof.
  rewrite write_file_run.
  destruct (files w !! path) as [f|]; [|now intros [= <-]].
  destruct (f_access_w f); [|now intros [= <-]].
  destruct (f_open_w f); [discriminate|now intros [= <-]].
Qed.

Lemma no_write_add_cerr (w : world) (s : string) : no_write w (add_cerr w s).
Proof. split; [reflexivity|]. exists []. cbn. now rewrite app_nil_r. Qed.

(** C10. For every path, [read_file] returns true whenever the file
    opens, whatever the line read gives: the value handed back is what
    [getline] stored, which is the empty string when the file is empty or
    the read fails, and nothing is printed to the error stream. *)
Theorem read_file_open_is_success (path value : string) (w : world) (f : file) :
  files w !! path = Some f ->
  f_open_r f = true ->
  exists v,
    file_ops.read_file path value w = ((true, v), add_trace w [SysOpenRead path]) /\
    (f_data f = EmptyString \/ f_read_ok f = false -> v = EmptyString) /\
    cerr (snd (file_ops.read_file path value w)) = cerr w.
Proof.
  intros Hf Ho. exists (getline f). rewrite read_file_run, Hf, Ho.
  repeat split.
  intros [He|Hr]; unfold getline.
  - rewrite He. now destruct (f_read_ok f).
  - now rewrite Hr.
Qed.

Lemma read_file_open_is_success_witness :
  exists v,
    file_ops.read_file POWER_PATH "old" (world_power "")
    = ((true, v), add_trace (world_power "") [SysOpenRead POWER_PATH]) /\
    v = EmptyString.
Proof.
  destruct (read_file_open_is_success POWER_PATH "old" (world_power "")
              (plain_file "") ltac:(vm_compute; reflexivity) eq_refl)
    as (v & Hrun & Hv & _).
  exists v. split; [exact Hrun|]. apply Hv. now left.
Defined.

(** *** Decimal numerals: [stoi] and [to_string] *)

Lemma isdigit_code (c : ascii) : isdigit c = true <-> 48 <= code c <= 57.
Proof. unfold isdigit. rewrite andb_true_iff, !Z.leb_le. tauto. Qed.

Lemma isdigit_not_space (c : ascii) : isdigit c = true -> isspace c = false.
Proof.
  rewrite isdigit_code. intros H. unfold isspace.
  apply orb_false_iff. split; [apply Z.eqb_neq; lia|].
  apply andb_false_iff. right. apply Z.leb_gt. lia.
Qed.

Lemma isdigit_not_sign (c : ascii) :
  isdigit c = true -> Ascii.eqb c "-" = false /\ Ascii.eqb c "+" = false.
Proof.
  rewrite isdigit_code. intros H.
  split; apply Ascii.eqb_neq; intros ->.
  - change (code "-") with 45 in H. lia.
  - change (code "+") with 43 in H. lia.
Qed.

Lemma append_cons (c : ascii) (a b : string) :
  String c a +:+ b = String c (a +:+ b).
Proof. reflexivity. Qed.

Lemma append_nil_l (b : string) : EmptyString +:+ b = b.
Proof. reflexivity. Qed.

Lemma all_chars_app (p : ascii -> bool) (a b : string) :
  all_chars p (a +:+ b) = all_chars p a && all_chars p b.
Proof.
  induction a as [|c a IH]; [reflexivity|].
  rewrite append_cons. cbn [all_chars]. now rewrite IH, andb_assoc.
Qed.

Lemma all_chars_impl (p q : ascii -> bool) (s : string) :
  (forall c, p c = true -> q c = true) ->
  all_chars p s = true -> all_chars q s = true.
Proof.
  intros Hpq. induction s as [|c s IH]; cbn; [reflexivity|].
  rewrite !andb_true_iff. intros [Hc Hs]. auto.
Qed.

Lemma append_assoc (a b c : string) : (a +:+ b) +:+ c = a +:+ b +:+ c.
Proof.
  induction a as [|x a IH]; [reflexivity|]. rewrite !append_cons. now rewrite IH.
Qed.

Lemma append_nil_r (a : string) : a +:+ EmptyString = a.
Proof.
  induction a as [|x a IH]; [reflexivity|]. rewrite append_cons. now rewrite IH.
Qed.

Lemma length_append (a b : string) :
  String.length (a +:+ b) = (String.length a + String.length b)%nat.
Proof.
  induction a as [|x a IH]; [reflexivity|].
  rewrite append_cons. cbn [String.length]. now rewrite IH.
Qed.

Lemma number_of_app (a b : string) :
  number_of (a +:+ b)
  = number_of a * 10 ^ Z.of_nat (String.length b) + number_of b.
Proof.
  induction a as [|c a IH].
  - rewrite append_nil_l. cbn [number_of]. lia.
  - rewrite append_cons. cbn [number_of].
    rewrite IH, length_append, Nat2Z.inj_add, Z.pow_add_r by lia. ring.
Qed.

(** The accumulation loop computes the positional value of a digit run
    and then goes on with what follows. *)
Lemma digits_value_app (ds rest : string) :
  all_chars isdigit ds = true ->
  forall acc,
    digits_value acc (ds +:+ rest)
    = digits_value (acc * 10 ^ Z.of_nat (String.length ds) + number_of ds) rest.
Proof.
  induction ds as [|c ds IH]; intros Hd acc.
  - rewrite append_nil_l. cbn. f_equal. lia.
  - cbn in Hd. apply andb_true_iff in Hd as [Hc Hd].
    rewrite append_cons. cbn [digits_value]. rewrite Hc, (IH Hd).
    f_equal. cbn [String.length number_of].
    rewrite Nat2Z.inj_succ, Z.pow_succ_r by lia. ring.
Qed.

Lemma digits_value_stop (rest : string) (acc : Z) :
  no_digit_ahead rest -> digits_value acc rest = acc.
Proof. destruct rest as [|c r]; cbn; [reflexivity|]. now intros ->. Qed.

(** Every string splits into its leading digits and a rest. *)
Lemma digit_run (t : string) :
  exists ds rest,
    t = ds +:+ rest /\ all_chars isdigit ds = true /\ no_digit_ahead rest.
Proof.
  induction t as [|c t (ds & rest & Ht & Hds & Hrest)].
  - exists EmptyString, EmptyString. cbn. auto.
  - destruct (isdigit c) eqn:Hc.
    + exists (String c ds), rest. rewrite append_cons, <- Ht. cbn.
      rewrite Hc, Hds. auto.
    + exists EmptyString, (String c t). cbn. auto.
Qed.

Lemma skip_space_app (ws t : string) :
  all_chars isspace ws = true -> skip_space (ws +:+ t) = skip_space t.
Proof.
  induction ws as [|c ws IH]; [reflexivity|].
  rewrite append_cons. cbn.
  intros H. apply andb_true_iff in H as [Hc Hws]. now rewrite Hc, IH.
Qed.

Lemma skip_space_split (s : string) :
  exists ws, s = ws +:+ skip_space s /\ all_chars isspace ws = true.
Proof.
  induction s as [|c s (ws & Hs & Hws)].
  - now exists EmptyString.
  - cbn [skip_space]. destruct (isspace c) eqn:Hc.
    + exists (String c ws). rewrite append_cons, <- Hs. cbn. now rewrite Hc, Hws.
    + now exists EmptyString.
Qed.

Lemma digit_string_cons (ds : string) :
  digit_string ds = true ->
  exists c r, ds = String c r /\ isdigit c = true /\ all_chars isdigit ds = true.
Proof.
  unfold digit_string. destruct ds as [|c r]; [discriminate|].
  cbn. intros H. exists c, r. apply andb_true_iff in H as [Hc Hr].
  now rewrite Hc, Hr.
Qed.

(** After the sign has been taken: the value [stoi] computes for a
    string that starts with a digit run. *)
Lemma stoi_digits (ds rest : string) :
  digit_string ds = true -> no_digit_ahead rest ->
  exists c r, ds +:+ rest = String c r /\ isdigit c = true /\
              digits_value 0 (ds +:+ rest) = number_of ds.
Proof.
  intros Hds Hrest.
  destruct (digit_string_cons ds Hds) as (c & r & -> & Hc & Hall).
  exists c, (r +:+ rest). rewrite <- append_cons. repeat split; [exact Hc|].
  rewrite (digits_value_app _ rest Hall), digits_value_stop by exact Hrest. lia.
Qed.

Lemma code_minus : code "-" = 45. Proof. reflexivity. Qed.
Lemma code_plus : code "+" = 43. Proof. reflexivity. Qed.

Lemma take_sign_cons (c : ascii) (r : string) :
  take_sign (String c r) =
  if Ascii.eqb c "-" then (true, r)
  else if Ascii.eqb c "+" then (false, r) else (false, String c r).
Proof.
  cbn [take_sign]. now rewrite <- code_minus, <- code_plus, !code_eqb.
Qed.

(** What [stoi] makes of a string that begins with a numeral. *)
Lemma stoi_of_numeric_prefix (s : string) (v : Z) :
  numeric_prefix s v ->
  stoi s = if in_int v then StoiOk v else StoiOutOfRange.
Proof.
  intros (ws & lit & rest & -> & Hws & Hlit & Hrest).
  unfold stoi. rewrite (skip_space_app _ _ Hws).
  destruct lit as [|c ds]; [discriminate|].
  cbn [integer_literal] in Hlit. rewrite append_cons.
  destruct (Ascii.eqb c "-") eqn:Hm; [|destruct (Ascii.eqb c "+") eqn:Hp].
  - apply Ascii.eqb_eq in Hm as ->.
    destruct (digit_string ds) eqn:Hds; [|discriminate].
    injection Hlit as <-.
    destruct (stoi_digits ds rest Hds Hrest) as (d & r & Heq & Hd & Hval).
    cbn [skip_space]. change (isspace "-") with false. cbv iota.
    rewrite take_sign_cons. cbn [Ascii.eqb Bool.eqb]. cbv iota.
    rewrite Hval, Heq, Hd. reflexivity.
  - apply Ascii.eqb_eq in Hp as ->.
    destruct (digit_string ds) eqn:Hds; [|discriminate].
    injection Hlit as <-.
    destruct (stoi_digits ds rest Hds Hrest) as (d & r & Heq & Hd & Hval).
    cbn [skip_space]. change (isspace "+") with false. cbv iota.
    rewrite take_sign_cons. cbn [Ascii.eqb Bool.eqb]. cbv iota.
    rewrite Hval, Heq, Hd. reflexivity.
  - destruct (digit_string (String c ds)) eqn:Hds; [|discriminate].
    injection Hlit as <-.
    destruct (stoi_digits _ rest Hds Hrest) as (d & r & Heq & Hd & Hval).
    rewrite append_cons in Heq, Hval. injection Heq as <- <-.
    cbn [skip_space]. rewrite (isdigit_not_space _ Hd), take_sign_cons, Hm, Hp.
    rewrite Hval, Hd. reflexivity.
Qed.

(** Whenever [stoi] returns a value, the string begins with a numeral
    for that value and the value fits [int]. *)
Lemma stoi_ok_numeric_prefix (s : string) (v : Z) :
  stoi s = StoiOk v -> numeric_prefix s v /\ in_int v = true.
Proof.
  unfold stoi. intros H.
  destruct (skip_space_split s) as (ws & Hs & Hws).
  destruct (skip_space s) as [|c t] eqn:Ht; [discriminate|].
  rewrite take_sign_cons in H.
  assert (Hgen : forall (neg : bool) (u : string),
             match u with
             | String d _ =>
                 if isdigit d then
                   let v0 := digits_value 0 u in
                   let v' := if neg then - v0 else v0 in
                   if (INT_MIN <=? v') && (v' <=? INT_MAX) then StoiOk v'
                   else StoiOutOfRange
                 else StoiInvalidArgument
             | EmptyString => StoiInvalidArgument
             end = StoiOk v ->
             exists ds rest, u = ds +:+ rest /\ digit_string ds = true /\
                             no_digit_ahead rest /\
                             v = (if neg then - number_of ds else number_of ds) /\
                             in_int v = true).
  { intros neg u Hu. destruct u as [|d u']; [discriminate|].
    destruct (isdigit d) eqn:Hd; [|discriminate].
    destruct (digit_run (String d u')) as (ds & rest & Hsplit & Hall & Hrest).
    assert (Hne : digit_string ds = true).
    { unfold digit_string. rewrite Hall. destruct ds as [|x ds']; [|reflexivity].
      rewrite append_nil_l in Hsplit. subst rest. cbn in Hrest. congruence. }
    cbv zeta in Hu. rewrite Hsplit in Hu.
    rewrite (digits_value_app _ rest Hall), digits_value_stop in Hu by exact Hrest.
    replace (0 * 10 ^ Z.of_nat (String.length ds) + number_of ds)
      with (number_of ds) in Hu by lia.
    exists ds, rest. unfold in_int.
    destruct ((INT_MIN <=? (if neg then - number_of ds else number_of ds)) &&
              ((if neg then - number_of ds else number_of ds) <=? INT_MAX)) eqn:Hr;
      [|discriminate].
    injection Hu as <-. now rewrite Hr. }
  destruct (Ascii.eqb c "-") eqn:Hm; [|destruct (Ascii.eqb c "+") eqn:Hp].
  - apply Ascii.eqb_eq in Hm as ->.
    destruct (Hgen true t H) as (ds & rest & -> & Hds & Hrest & -> & Hin).
    split; [|exact Hin].
    exists ws, (String "-" ds), rest. repeat split; try assumption.
    cbn [integer_literal Ascii.eqb Bool.eqb]. cbv iota. now rewrite Hds.
  - apply Ascii.eqb_eq in Hp as ->.
    destruct (Hgen false t H) as (ds & rest & -> & Hds & Hrest & -> & Hin).
    split; [|exact Hin].
    exists ws, (String "+" ds), rest. repeat split; try assumption.
    cbn [integer_literal Ascii.eqb Bool.eqb]. cbv iota. now rewrite Hds.
  - destruct (Hgen false (String c t) H) as (ds & rest & Hsplit & Hds & Hrest & -> & Hin).
    split; [|exact Hin].
    exists ws, ds, rest. repeat split; try assumption.
    + now rewrite Hs, Hsplit.
    + destruct (digit_string_cons ds Hds) as (d & r & -> & Hd & _).
      rewrite append_cons in Hsplit. injection Hsplit as -> _.
      cbn [integer_literal]. now rewrite Hm, Hp, Hds.
Qed.

Lemma code_digit_char (d : Z) : 0 <= d < 10 -> code (digit_char d) = 48 + d.
Proof.
  intros Hd. unfold code, digit_char.
  rewrite nat_ascii_embedding by lia. lia.
Qed.

Lemma isdigit_digit_char (d : Z) : 0 <= d < 10 -> isdigit (digit_char d) = true.
Proof. intros Hd. apply isdigit_code. rewrite code_digit_char by exact Hd. lia. Qed.

Lemma digit_value_digit_char (d : Z) : 0 <= d < 10 -> digit_value (digit_char d) = d.
Proof. intros Hd. unfold digit_value. rewrite code_digit_char by exact Hd. lia. Qed.

Lemma decimal_digits_S (fuel : nat) (n : Z) (acc : string) :
  decimal_digits (S fuel) n acc =
  if n / 10 =? 0 then String (digit_char (n mod 10)) acc
  else decimal_digits fuel (n / 10) (String (digit_char (n mod 10)) acc).
Proof. reflexivity. Qed.

(** With enough fuel [decimal_digits] puts the numeral of [n] in front
    of [acc]. *)
Lemma decimal_digits_spec (fuel : nat) :
  forall n acc,
    0 <= n < 10 ^ Z.of_nat (S fuel) ->
    exists ds,
      decimal_digits (S fuel) n acc = ds +:+ acc /\
      digit_string ds = true /\ number_of ds = n.
Proof.
  induction fuel as [|fuel IH]; intros n acc Hn.
  - assert (Hq : n / 10 = 0) by (apply Z.div_small; cbn in Hn; lia).
    exists (String (digit_char (n mod 10)) EmptyString).
    rewrite decimal_digits_S, Hq, Z.eqb_refl. split; [reflexivity|].
    assert (Hm : 0 <= n mod 10 < 10) by (apply Z.mod_pos_bound; lia).
    unfold digit_string. cbn. rewrite isdigit_digit_char, digit_value_digit_char by exact Hm.
    split; [reflexivity|]. rewrite Z.mod_small; cbn in Hn; lia.
  - assert (Hm : 0 <= n mod 10 < 10) by (apply Z.mod_pos_bound; lia).
    rewrite decimal_digits_S.
    destruct (n / 10 =? 0) eqn:Hq.
    + apply Z.eqb_eq in Hq.
      exists (String (digit_char (n mod 10)) EmptyString). split; [reflexivity|].
      unfold digit_string. cbn.
      rewrite isdigit_digit_char, digit_value_digit_char by exact Hm.
      split; [reflexivity|].
      pose proof (Z.div_mod n 10 ltac:(lia)). lia.
    + assert (Hn' : 0 <= n / 10 < 10 ^ Z.of_nat (S fuel)).
      { split; [apply Z.div_pos; lia|].
        apply Z.div_lt_upper_bound; [lia|].
        replace (Z.of_nat (S (S fuel))) with (Z.succ (Z.of_nat (S fuel))) in Hn by lia.
        rewrite Z.pow_succ_r in Hn by lia. lia. }
      destruct (IH (n / 10) (String (digit_char (n mod 10)) acc) Hn')
        as (ds & Hrun & Hds & Hval).
      exists (ds +:+ String (digit_char (n mod 10)) EmptyString).
      rewrite Hrun, append_assoc. split; [reflexivity|].
      destruct (digit_string_cons ds Hds) as (c & r & -> & Hc & Hall).
      split.
      * unfold digit_string. rewrite all_chars_app, Hall, append_cons. cbn.
        now rewrite isdigit_digit_char by exact Hm.
      * rewrite number_of_app, Hval. cbn.
        rewrite digit_value_digit_char by exact Hm.
        pose proof (Z.div_mod n 10 ltac:(lia)). lia.
Qed.

Lemma decimal_spec (n : Z) :
  0 <= n -> digit_string (decimal n) = true /\ number_of (decimal n) = n.
Proof.
  intros Hn. unfold decimal.
  assert (Hb : 0 <= n < 10 ^ Z.of_nat (S (Z.to_nat (Z.log2 n)))).
  { split; [exact Hn|].
    pose proof (Z.log2_nonneg n) as Hl.
    replace (Z.of_nat (S (Z.to_nat (Z.log2 n)))) with (Z.succ (Z.log2 n)) by lia.
    assert (H2 : n < 2 ^ Z.succ (Z.log2 n)).
    { destruct (Z.eq_dec n 0) as [->|Hne]; [reflexivity|].
      apply Z.log2_spec. lia. }
    assert (H10 : 2 ^ Z.succ (Z.log2 n) <= 10 ^ Z.succ (Z.log2 n)).
    { apply Z.pow_le_mono_l. lia. }
    lia. }
  destruct (decimal_digits_spec _ n EmptyString Hb) as (ds & Hrun & Hds & Hval).
  rewrite Hrun, append_nil_r. auto.
Qed.

(** [to_string] writes a numeric representation of its argument. *)
Lemma integer_literal_to_string (v : Z) : integer_literal (to_string v) = Some v.
Proof.
  unfold to_string. destruct (v <? 0) eqn:Hv.
  - apply Z.ltb_lt in Hv.
    destruct (decimal_spec (- v) ltac:(lia)) as [Hds Hval].
    cbn [integer_literal Ascii.eqb Bool.eqb]. cbv iota.
    rewrite Hds, Hval. f_equal. lia.
  - apply Z.ltb_ge in Hv.
    destruct (decimal_spec v Hv) as [Hds Hval].
    destruct (digit_string_cons _ Hds) as (c & r & Heq & Hc & _).
    destruct (isdigit_not_sign c Hc) as [Hm Hp].
    rewrite Heq. cbn [integer_literal]. rewrite Hm, Hp, <- Heq, Hds, Hval.
    reflexivity.
Qed.

Lemma integer_literal_prefix (s : string) (v : Z) :
  integer_literal s = Some v -> numeric_prefix s v.
Proof.
  intros H. exists EmptyString, s, EmptyString.
  rewrite append_nil_l, append_nil_r. cbn. auto.
Qed.

Lemma stoi_of_literal (s : string) (v : Z) :
  integer_literal s = Some v ->
  stoi s = if in_int v then StoiOk v else StoiOutOfRange.
Proof. intros H. apply stoi_of_numeric_prefix, integer_literal_prefix, H. Qed.

(** Parsing what [to_string] printed gives the number back. *)
Lemma stoi_to_string (v : Z) :
  INT_MIN <= v <= INT_MAX -> stoi (to_string v) = StoiOk v.
Proof.
  intros Hv. rewrite (stoi_of_literal _ v (integer_literal_to_string v)).
  unfold in_int. destruct Hv as [H1 H2].
  apply Z.leb_le in H1, H2. now rewrite H1, H2.
Qed.

(** A numeral has no line break in it, so [getline] reads all of it. *)
Lemma first_line_id (s : string) :
  all_chars (fun c => negb (code c =? 10)) s = true -> first_line s = s.
Proof.
  induction s as [|c s IH]; cbn; [reflexivity|].
  intros H. apply andb_true_iff in H as [Hc Hs].
  apply negb_true_iff in Hc. now rewrite Hc, IH.
Qed.

Lemma first_line_to_string (v : Z) : first_line (to_string v) = to_string v.
Proof.
  assert (Hd : forall ds, digit_string ds = true ->
                          all_chars (fun c => negb (code c =? 10)) ds = true).
  { intros ds Hds. destruct (digit_string_cons ds Hds) as (_ & _ & _ & _ & Hall).
    revert Hall. apply all_chars_impl. intros c Hc.
    apply isdigit_code in Hc. apply negb_true_iff, Z.eqb_neq. lia. }
  apply first_line_id. unfold to_string. destruct (v <? 0) eqn:Hv.
  - apply Z.ltb_lt in Hv. cbn [all_chars].
    rewrite (Hd _ (proj1 (decimal_spec (- v) ltac:(lia)))). reflexivity.
  - apply Z.ltb_ge in Hv. exact (Hd _ (proj1 (decimal_spec v Hv))).
Qed.

(** *** The [set] handlers *)

Lemma set_power_run (value : string) (w : world) :
  set_power value w =
  match stoi value with
  | StoiOk val =>
      if (val <? 0) || (val >? 100) then
        (false, add_cerr w ("Error: Value must be between 0 and 100" +:+ endl))
      else
        match file_ops.write_file POWER_PATH (to_string val) w with
        | (true, w') =>
            (true, add_cout w' ("Set charge threshold to " +:+ to_string val +:+ "%" +:+ endl))
        | (false, w') => (false, w')
        end
  | _ => (false, add_cerr w ("Error: Invalid value '" +:+ value +:+ "'" +:+ endl))
  end.
Proof.
  unfold set_power, bind, ret. destruct (stoi value) as [val| |]; try reflexivity.
  destruct ((val <? 0) || (val >? 100)); [reflexivity|].
  now destruct (file_ops.write_file _ _ w) as [[] w'].
Qed.

Lemma set_keyboard_backlight_run (value : string) (w : world) :
  set_keyboard_backlight value w =
  match stoi value with
  | StoiOk val =>
      if (val <? 0) || (val >? 3) then
        (false, add_cerr w ("Error: Value must be between 0 and 3" +:+ endl))
      else
        match file_ops.write_file KBD_BACKLIGHT_PATH (to_string val) w with
        | (true, w') =>
            (true, add_cout w' ("Set keyboard backlight level to " +:+ to_string val +:+ endl))
        | (false, w') => (false, w')
        end
  | _ => (false, add_cerr w ("Error: Invalid value '" +:+ value +:+ "'" +:+ endl))
  end.
Proof.
  unfold set_keyboard_backlight, bind, ret.
  destruct (stoi value) as [val| |]; try reflexivity.
  destruct ((val <? 0) || (val >? 3)); [reflexivity|].
  now destruct (file_ops.write_file _ _ w) as [[] w'].
Qed.

Lemma set_onoff_run (path label value : string) (w : world) :
  set_onoff path label value w =
  match normalize value with
  | None =>
      (false, add_cerr w ("Error: Value must be one of: 0/1, on/off, true/false, yes/no" +:+ endl))
  | Some normalized_value =>
      match file_ops.write_file path normalized_value w with
      | (true, w') => (true, add_cout w' (label +:+ enabled_text normalized_value +:+ endl))
      | (false, w') => (false, w')
      end
  end.
Proof.
  unfold set_onoff, bind, ret. destruct (normalize value) as [nv|]; [|reflexivity].
  now destruct (file_ops.write_file _ _ w) as [[] w'].
Qed.

Lemma set_performance_mode_run (mode : string) (w : world) :
  set_performance_mode mode w =
  match file_ops.read_file PLATFORM_PROFILE_CHOICES_PATH EmptyString w with
  | ((false, _), w1) => (false, w1)
  | ((true, available_modes), w1) =>
      match find available_modes mode with
      | None =>
          (false, add_cerr w1 ("Error: Invalid performance mode '" +:+ mode +:+ "'" +:+ endl))
      | Some _ =>
          match file_ops.write_file PLATFORM_PROFILE_PATH mode w1 with
          | (true, w') => (true, add_cout w' ("Set performance mode to " +:+ mode +:+ endl))
          | (false, w') => (false, w')
          end
      end
  end.
Proof.
  unfold set_performance_mode, bind, ret.
  destruct (file_ops.read_file _ _ w) as [[[] modes] w1]; [|reflexivity].
  cbn [negb]. destruct (find modes mode); [|reflexivity].
  now destruct (file_ops.write_file _ _ w1) as [[] w'].
Qed.

(** The outcome of a handler step that ends in [write_file]. *)
Lemma write_then_report (path value msg : string) (w : world) :
  let r := match file_ops.write_file path value w with
           | (true, w') => (true, add_cout w' msg)
           | (false, w') => (false, w')
           end in
  fst r = can_write w path /\
  (fst r = true ->
   trace (snd r)
   = trace w ++ [SysAccess path W_OK; SysOpenWrite path; SysWrite path value] /\
   (write_ok w path = true -> contents (snd r) path = Some value)).
Proof.
  cbv zeta. pose proof (write_file_fst path value w) as Hfst.
  destruct (file_ops.write_file path value w) as [[] w'] eqn:Hrun; cbn [fst snd] in *.
  - split; [exact Hfst|]. intros _.
    destruct (write_file_stores _ _ _ _ Hrun) as [Ht Hc]. now split.
  - split; [exact Hfst|]. discriminate.
Qed.

Lemma normalize_zero (value : string) :
  value ∈ ["0"; "off"; "false"; "no"] -> normalize value = Some "0".
Proof.
  intros H. repeat (apply elem_of_cons in H as [->|H]; [reflexivity|]).
  now apply elem_of_nil in H.
Qed.

Lemma normalize_one (value : string) :
  value ∈ ["1"; "on"; "true"; "yes"] -> normalize value = Some "1".
Proof.
  intros H. repeat (apply elem_of_cons in H as [->|H]; [reflexivity|]).
  now apply elem_of_nil in H.
Qed.

Lemma normalize_other (value : string) :
  value ∉ ["0"; "off"; "false"; "no"; "1"; "on"; "true"; "yes"] ->
  normalize value = None.
Proof.
  intros H. unfold normalize.
  repeat (apply not_elem_of_cons in H as [Hne H];
          apply String.eqb_neq in Hne; rewrite Hne; clear Hne).
  reflexivity.
Qed.

Lemma onoff_set_unfold (g : globals) (f : onoff_feature) (value : string) :
  exists label, onoff_set g f value = set_onoff (onoff_path g f) label value.
Proof. destruct f; eexists; reflexivity. Qed.

(** C3. For each of the three on/off features: a token among "0", "off",
    "false", "no" is normalized to "0" and a token among "1", "on",
    "true", "yes" to "1". The set succeeds exactly when the permission
    check and the open pass; it then hands that string to the write, and
    the file holds it when the write is taken. Any other token makes the
    set fail without any write. *)
Theorem onoff_set_normalizes (g : globals) (f : onoff_feature)
    (value : string) (w : world) :
  let path := onoff_path g f in
  let r := onoff_set g f value w in
  (value ∈ ["0"; "off"; "false"; "no"] ->
   fst r = can_write w path /\
   (fst r = true ->
    trace (snd r) = trace w ++ [SysAccess path W_OK; SysOpenWrite path; SysWrite path "0"] /\
    (write_ok w path = true -> contents (snd r) path = Some "0")))
  /\
  (value ∈ ["1"; "on"; "true"; "yes"] ->
   fst r = can_write w path /\
   (fst r = true ->
    trace (snd r) = trace w ++ [SysAccess path W_OK; SysOpenWrite path; SysWrite path "1"] /\
    (write_ok w path = true -> contents (snd r) path = Some "1")))
  /\
  (value ∉ ["0"; "off"; "false"; "no"; "1"; "on"; "true"; "yes"] ->
   fst r = false /\ no_write w (snd r)).
Proof.
  cbv zeta. destruct (onoff_set_unfold g f value) as [label ->].
  rewrite set_onoff_run. split; [|split]; intros H.
  - rewrite (normalize_zero _ H). apply write_then_report.
  - rewrite (normalize_one _ H). apply write_then_report.
  - rewrite (normalize_other _ H). split; [reflexivity|apply no_write_add_cerr].
Qed.

Lemma onoff_set_normalizes_witness :
  contents (snd (onoff_set sample_globals FUsb "yes" world_onoff))
           (USB_CHARGE_PATH sample_globals) = Some "1"
  /\ contents (snd (onoff_set sample_globals FRecord "off" world_onoff))
              (ALLOW_RECORDING_PATH sample_globals) = Some "0"
  /\ fst (onoff_set sample_globals FLid "maybe" world_onoff) = false.
Proof.
  split; [|split].
  - destruct (proj1 (proj2 (onoff_set_normalizes sample_globals FUsb "yes" world_onoff))
                ltac:(set_solver)) as [Hfst Hok].
    destruct Hok as [_ Hc]; [rewrite Hfst; vm_compute; reflexivity|].
    apply Hc. vm_compute. reflexivity.
  - destruct (proj1 (onoff_set_normalizes sample_globals FRecord "off" world_onoff)
                ltac:(set_solver)) as [Hfst Hok].
    destruct Hok as [_ Hc]; [rewrite Hfst; vm_compute; reflexivity|].
    apply Hc. vm_compute. reflexivity.
  - apply (proj2 (proj2 (onoff_set_normalizes sample_globals FLid "maybe" world_onoff))).
    apply (bool_decide_unpack _). vm_compute. exact I.
Defined.

Lemma range_check (v hi : Z) :
  (v <? 0) || (v >? hi) = negb ((0 <=? v) && (v <=? hi)).
Proof.
  rewrite Z.gtb_ltb.
  destruct (Z.ltb_spec v 0), (Z.ltb_spec hi v), (Z.leb_spec 0 v), (Z.leb_spec v hi);
    cbn; first [reflexivity | lia].
Qed.

Lemma range_check_true (v hi : Z) :
  (v <? 0) || (v >? hi) = false <-> 0 <= v <= hi.
Proof.
  rewrite range_check, negb_false_iff, andb_true_iff, !Z.leb_le. tauto.
Qed.

(** The two ways [set_power] can go. *)
Lemma set_power_cases (value : string) (w : world) :
  (exists val,
     stoi value = StoiOk val /\ 0 <= val <= 100 /\
     set_power value w =
     match file_ops.write_file POWER_PATH (to_string val) w with
     | (true, w') =>
         (true, add_cout w' ("Set charge threshold to " +:+ to_string val +:+ "%" +:+ endl))
     | (false, w') => (false, w')
     end)
  \/
  ((forall val, stoi value = StoiOk val -> ~ 0 <= val <= 100) /\
   exists msg, set_power value w = (false, add_cerr w msg)).
Proof.
  rewrite set_power_run. destruct (stoi value) as [val| |].
  - destruct ((val <? 0) || (val >? 100)) eqn:Hr.
    + right. split; [|eauto]. intros v [= <-] Hv.
      apply range_check_true in Hv. congruence.
    + left. exists val. apply range_check_true in Hr. auto.
  - right. split; [discriminate|eauto].
  - right. split; [discriminate|eauto].
Qed.

Lemma set_keyboard_backlight_cases (value : string) (w : world) :
  (exists val,
     stoi value = StoiOk val /\ 0 <= val <= 3 /\
     set_keyboard_backlight value w =
     match file_ops.write_file KBD_BACKLIGHT_PATH (to_string val) w with
     | (true, w') =>
         (true, add_cout w' ("Set keyboard backlight level to " +:+ to_string val +:+ endl))
     | (false, w') => (false, w')
     end)
  \/
  ((forall val, stoi value = StoiOk val -> ~ 0 <= val <= 3) /\
   exists msg, set_keyboard_backlight value w = (false, add_cerr w msg)).
Proof.
  rewrite set_keyboard_backlight_run. destruct (stoi value) as [val| |].
  - destruct ((val <? 0) || (val >? 3)) eqn:Hr.
    + right. split; [|eauto]. intros v [= <-] Hv.
      apply range_check_true in Hv. congruence.
    + left. exists val. apply range_check_true in Hr. auto.
  - right. split; [discriminate|eauto].
  - right. split; [discriminate|eauto].
Qed.

Lemma in_int_small (v hi : Z) : 0 <= v <= hi -> hi <= INT_MAX -> in_int v = true.
Proof.
  intros Hv Hhi. unfold in_int, INT_MIN, INT_MAX in *.
  apply andb_true_iff. rewrite !Z.leb_le. lia.
Qed.

(** A numeral in front of the string with a value from 0 to [hi] is the
    same as [stoi] returning such a value. *)
Lemma stoi_in_range (value : string) (hi : Z) :
  hi <= INT_MAX ->
  (exists v, numeric_prefix value v /\ 0 <= v <= hi) <->
  (exists v, stoi value = StoiOk v /\ 0 <= v <= hi).
Proof.
  intros Hhi. split; intros (v & H & Hv); exists v; split; try exact Hv.
  - now rewrite (stoi_of_numeric_prefix _ _ H), (in_int_small v hi Hv Hhi).
  - apply stoi_ok_numeric_prefix, H.
Qed.

Lemma no_write_contents (w w' : world) (path : string) :
  no_write w w' -> contents w' path = contents w path.
Proof. intros [Hf _]. unfold contents. now rewrite Hf. Qed.

Lemma no_write_read (w : world) (p msg : string) :
  no_write w (add_cerr (add_trace w [SysOpenRead p]) msg).
Proof. split; [reflexivity|]. now exists [SysOpenRead p]. Qed.

(** *** The charge threshold *)

(** Counterexample to C4 as stated: "85abc" is not a numeric
    representation of an integer, yet [power set 85abc] succeeds and
    stores "85". *)
Lemma set_power_accepts_trailing_text :
  integer_literal "85abc" = None /\
  fst (set_power "85abc" (world_power "80")) = true /\
  contents (snd (set_power "85abc" (world_power "80"))) POWER_PATH = Some "85".
Proof. vm_compute. auto. Qed.

(** C4, amended. For every argument string, [power set] succeeds exactly
    when the string begins, after optional white space, with a numeric
    representation of an integer v with 0 <= v <= 100 (what follows the
    digits is ignored) and the write goes through; a string with no such
    numeral in front, or with one whose value is outside 0..100, is
    rejected with the backing file unchanged and no write attempted. *)
Theorem set_power_accepts_numeric_prefix (value : string) (w : world) :
  (fst (set_power value w) = true <->
   (exists v, numeric_prefix value v /\ 0 <= v <= 100) /\
   can_write w POWER_PATH = true)
  /\
  ((forall v, numeric_prefix value v -> ~ 0 <= v <= 100) ->
   fst (set_power value w) = false /\
   no_write w (snd (set_power value w)) /\
   contents (snd (set_power value w)) POWER_PATH = contents w POWER_PATH).
Proof.
  rewrite (stoi_in_range value 100) by (unfold INT_MAX; lia).
  destruct (set_power_cases value w) as [(val & Hs & Hv & ->)|[Hno [msg ->]]].
  - pose proof (write_then_report POWER_PATH (to_string val)
                  ("Set charge threshold to " +:+ to_string val +:+ "%" +:+ endl) w)
      as [Hfst _].
    cbv zeta in Hfst. rewrite Hfst. split.
    + split; [intros Hc; split; [eauto|exact Hc] | now intros [_ Hc]].
    + intros Hbad. exfalso. apply (Hbad val); [|exact Hv].
      apply stoi_ok_numeric_prefix, Hs.
  - cbn [fst snd]. split.
    + split; [discriminate|]. intros [(v & Hv1 & Hv2) _]. now destruct (Hno v Hv1).
    + intros _. split; [reflexivity|].
      split; [apply no_write_add_cerr|reflexivity].
Qed.

Lemma set_power_accepts_numeric_prefix_witness :
  fst (set_power "abc" (world_power "80")) = false /\
  contents (snd (set_power "abc" (world_power "80"))) POWER_PATH = Some "80".
Proof.
  assert (Hbad : forall v, numeric_prefix "abc" v -> ~ 0 <= v <= 100).
  { intros v Hp. apply stoi_of_numeric_prefix in Hp.
    change (stoi "abc") with StoiInvalidArgument in Hp.
    destruct (in_int v); discriminate. }
  destruct (proj2 (set_power_accepts_numeric_prefix "abc" (world_power "80")) Hbad)
    as (Hfst & _ & Hc).
  split; [exact Hfst|]. rewrite Hc. vm_compute. reflexivity.
Defined.

(** C9. When [power set] accepts its argument, the string it hands to
    the write is [std::to_string] of the parsed integer, a numeric
    representation of that integer, and not the argument as typed; the
    backing file holds that string when the write is taken. So "085" and
    "+85" are both written, and then stored, as "85". *)
Theorem set_power_stores_canonical (value : string) (w : world) :
  fst (set_power value w) = true ->
  (exists val,
     stoi value = StoiOk val /\ 0 <= val <= 100 /\
     integer_literal (to_string val) = Some val /\
     trace (snd (set_power value w))
     = trace w ++ [SysAccess POWER_PATH W_OK; SysOpenWrite POWER_PATH;
                   SysWrite POWER_PATH (to_string val)] /\
     (write_ok w POWER_PATH = true ->
      contents (snd (set_power value w)) POWER_PATH = Some (to_string val)))
  /\
  (value = "085" \/ value = "+85" ->
   trace (snd (set_power value w))
   = trace w ++ [SysAccess POWER_PATH W_OK; SysOpenWrite POWER_PATH;
                 SysWrite POWER_PATH "85"] /\
   (write_ok w POWER_PATH = true ->
    contents (snd (set_power value w)) POWER_PATH = Some "85")).
Proof.
  intros Hok.
  assert (H : exists val,
     stoi value = StoiOk val /\ 0 <= val <= 100 /\
     integer_literal (to_string val) = Some val /\
     trace (snd (set_power value w))
     = trace w ++ [SysAccess POWER_PATH W_OK; SysOpenWrite POWER_PATH;
                   SysWrite POWER_PATH (to_string val)] /\
     (write_ok w POWER_PATH = true ->
      contents (snd (set_power value w)) POWER_PATH = Some (to_string val))).
  { destruct (set_power_cases value w) as [(val & Hs & Hv & Hrun)|[_ [msg Hrun]]];
      rewrite Hrun in *; [|discriminate].
    pose proof (write_then_report POWER_PATH (to_string val)
                  ("Set charge threshold to " +:+ to_string val +:+ "%" +:+ endl) w)
      as [_ Hst].
    exists val. destruct (Hst Hok) as [Ht Hc].
    repeat split; try assumption; try lia. apply integer_literal_to_string. }
  split; [exact H|].
  destruct H as (val & Hs & _ & _ & Ht & Hc).
  intros [->| ->]; vm_compute in Hs; injection Hs as <-; split; assumption.
Qed.

Lemma set_power_stores_canonical_witness :
  contents (snd (set_power "+85" (world_power "80"))) POWER_PATH = Some "85".
Proof.
  destruct (set_power_stores_canonical "+85" (world_power "80")
              ltac:(vm_compute; reflexivity)) as [_ H].
  destruct H as [_ Hc]; [now right|].
  apply Hc. vm_compute. reflexivity.
Defined.

Lemma read_power_run (w : world) :
  read_power w =
  match file_ops.read_file POWER_PATH EmptyString w with
  | ((true, value), w1) =>
      (true, add_cout w1 ("Current charge threshold: " +:+ value +:+ "%" +:+ endl))
  | ((false, _), w1) => (false, w1)
  end.
Proof.
  unfold read_power, bind, ret.
  now destruct (file_ops.read_file _ _ w) as [[[] v] w1].
Qed.

(** C8. For every integer v from 0 to 100 and every numeric
    representation of it given as the argument: on a backing file that
    can be written and read and that keeps what is written to it,
    [power set] succeeds and stores the decimal digits of v, and the
    [power read] that follows succeeds and prints that value followed by
    "%". *)
Theorem power_set_then_read (value : string) (v : Z) (w : world) (f : file) :
  0 <= v <= 100 ->
  integer_literal value = Some v ->
  files w !! POWER_PATH = Some f ->
  f_access_w f = true -> f_open_w f = true -> f_write_ok f = true ->
  f_open_r f = true -> f_read_ok f = true ->
  exists w1 w2,
    set_power value w = (true, w1) /\
    read_power w1 = (true, w2) /\
    contents w1 POWER_PATH = Some (to_string v) /\
    integer_literal (to_string v) = Some v /\
    cout w2 = cout w1 +:+ "Current charge threshold: " +:+ to_string v +:+ "%" +:+ endl.
Proof.
  intros Hv Hlit Hf Haw How Hwr Hor Hrd.
  pose proof (stoi_of_literal _ _ Hlit) as Hs.
  rewrite (in_int_small v 100 Hv) in Hs by (unfold INT_MAX; lia).
  rewrite set_power_run, Hs.
  rewrite (proj2 (range_check_true v 100) Hv).
  rewrite write_file_run, Hf, Haw, How, Hwr.
  eexists. eexists. split; [reflexivity|].
  rewrite read_power_run, read_file_run.
  cbn [files add_cout add_trace with_file].
  rewrite lookup_insert_eq. cbn [f_open_r set_data]. rewrite Hor.
  split; [reflexivity|].
  split; [unfold contents; cbn; now rewrite lookup_insert_eq|].
  split; [apply integer_literal_to_string|].
  cbn [cout add_cout add_trace]. unfold getline. cbn [f_read_ok f_data set_data].
  now rewrite Hrd, first_line_to_string.
Qed.

Lemma power_set_then_read_witness :
  exists w1 w2,
    set_power "85" (world_power "80") = (true, w1) /\
    read_power w1 = (true, w2) /\
    cout w2 = cout w1 +:+ "Current charge threshold: " +:+ "85" +:+ "%" +:+ endl.
Proof.
  destruct (power_set_then_read "85" 85 (world_power "80") (plain_file "80")
              ltac:(lia) eq_refl ltac:(vm_compute; reflexivity)
              eq_refl eq_refl eq_refl eq_refl eq_refl)
    as (w1 & w2 & Hset & Hread & _ & _ & Hout).
  exists w1, w2. auto.
Defined.

(** *** The keyboard backlight *)

(** C7. For every argument that is a numeric representation of an
    integer v: [kbd set] succeeds if and only if 0 <= v <= 3 and the
    write goes through (the permission check and the open pass); outside
    that range it fails and no write is attempted. When it succeeds the
    write has been made: the decimal digits of v were handed to the
    write on the brightness file, which holds them when the write is
    taken. (At the witness: 0 and 3 are accepted and written, -1 and 4
    are rejected.) *)
Theorem set_keyboard_backlight_range (value : string) (v : Z) (w : world) :
  integer_literal value = Some v ->
  (fst (set_keyboard_backlight value w) = true <->
   0 <= v <= 3 /\ can_write w KBD_BACKLIGHT_PATH = true)
  /\
  (~ 0 <= v <= 3 ->
   fst (set_keyboard_backlight value w) = false /\
   no_write w (snd (set_keyboard_backlight value w)))
  /\
  (fst (set_keyboard_backlight value w) = true ->
   trace (snd (set_keyboard_backlight value w))
   = trace w ++ [SysAccess KBD_BACKLIGHT_PATH W_OK; SysOpenWrite KBD_BACKLIGHT_PATH;
                 SysWrite KBD_BACKLIGHT_PATH (to_string v)] /\
   (write_ok w KBD_BACKLIGHT_PATH = true ->
    contents (snd (set_keyboard_backlight value w)) KBD_BACKLIGHT_PATH
    = Some (to_string v))).
Proof.
  intros Hlit. pose proof (stoi_of_literal _ _ Hlit) as Hs.
  destruct (set_keyboard_backlight_cases value w)
    as [(val & Hs' & Hv & ->)|[Hno [msg ->]]].
  - assert (val = v) as ->.
    { rewrite Hs' in Hs. destruct (in_int v); congruence. }
    pose proof (write_then_report KBD_BACKLIGHT_PATH (to_string v)
                  ("Set keyboard backlight level to " +:+ to_string v +:+ endl) w)
      as [Hfst Hst].
    cbv zeta in Hfst, Hst. split; [rewrite Hfst; tauto|].
    split; [intros Hbad; now destruct Hbad|exact Hst].
  - cbn [fst snd]. split.
    + split; [discriminate|]. intros [Hv _]. exfalso.
      rewrite (in_int_small v 3 Hv) in Hs by (unfold INT_MAX; lia).
      now apply (Hno v Hs).
    + split; [|discriminate].
      intros _. split; [reflexivity|apply no_write_add_cerr].
Qed.

Lemma set_keyboard_backlight_range_witness :
  (fst (set_keyboard_backlight "0" (world_kbd "1")) = true /\
   contents (snd (set_keyboard_backlight "0" (world_kbd "1"))) KBD_BACKLIGHT_PATH
   = Some "0") /\
  (fst (set_keyboard_backlight "3" (world_kbd "1")) = true /\
   contents (snd (set_keyboard_backlight "3" (world_kbd "1"))) KBD_BACKLIGHT_PATH
   = Some "3") /\
  (fst (set_keyboard_backlight "-1" (world_kbd "1")) = false /\
   no_write (world_kbd "1") (snd (set_keyboard_backlight "-1" (world_kbd "1")))) /\
  (fst (set_keyboard_backlight "4" (world_kbd "1")) = false /\
   no_write (world_kbd "1") (snd (set_keyboard_backlight "4" (world_kbd "1")))).
Proof.
  assert (H0 : fst (set_keyboard_backlight "0" (world_kbd "1")) = true).
  { apply (proj1 (set_keyboard_backlight_range "0" 0 (world_kbd "1") eq_refl)).
    split; [lia | vm_compute; reflexivity]. }
  assert (H3 : fst (set_keyboard_backlight "3" (world_kbd "1")) = true).
  { apply (proj1 (set_keyboard_backlight_range "3" 3 (world_kbd "1") eq_refl)).
    split; [lia | vm_compute; reflexivity]. }
  split; [|split; [|split]].
  - split; [exact H0|].
    apply (proj2 (proj2 (set_keyboard_backlight_range "0" 0 (world_kbd "1") eq_refl)) H0).
    vm_compute. reflexivity.
  - split; [exact H3|].
    apply (proj2 (proj2 (set_keyboard_backlight_range "3" 3 (world_kbd "1") eq_refl)) H3).
    vm_compute. reflexivity.
  - apply (proj1 (proj2 (set_keyboard_backlight_range "-1" (-1) (world_kbd "1") eq_refl))).
    lia.
  - apply (proj1 (proj2 (set_keyboard_backlight_range "4" 4 (world_kbd "1") eq_refl))).
    lia.
Defined.

(** *** The performance profile *)

Lemma prefix_split (pat s : string) :
  String.prefix pat s = true <-> exists post, s = pat +:+ post.
Proof.
  revert s. induction pat as [|c pat IH]; intros s.
  - split; [intros _; now exists s|]. destruct s; reflexivity.
  - destruct s as [|d s]; cbn [String.prefix].
    + split; [discriminate|]. intros [post H]. rewrite append_cons in H. discriminate.
    + destruct (ascii_dec c d) as [->|Hne].
      * rewrite IH. split; intros [post H]; exists post.
        -- rewrite append_cons. now f_equal.
        -- rewrite append_cons in H. now injection H.
      * split; [discriminate|]. intros [post H].
        rewrite append_cons in H. injection H as -> _. contradiction.
Qed.

Lemma substring_cons (pat : string) (c : ascii) (s : string) :
  substring pat (String c s) <->
  String.prefix pat (String c s) = true \/ substring pat s.
Proof.
  split.
  - intros (pre & post & H). destruct pre as [|d pre].
    + left. apply prefix_split. exists post. now rewrite append_nil_l in H.
    + right. rewrite append_cons in H. injection H as _ ->. now exists pre, post.
  - intros [H|(pre & post & ->)].
    + apply prefix_split in H as [post H]. exists EmptyString, post.
      now rewrite append_nil_l.
    + exists (String c pre), post. now rewrite append_cons.
Qed.

Lemma substring_nil (pat : string) :
  substring pat EmptyString <-> String.prefix pat EmptyString = true.
Proof.
  split.
  - intros (pre & post & H). destruct pre; [|rewrite append_cons in H; discriminate].
    rewrite append_nil_l in H. apply prefix_split. now exists post.
  - intros H. apply prefix_split in H as [post H]. exists EmptyString, post.
    now rewrite append_nil_l.
Qed.

(** [find] returns a position exactly when the pattern occurs. *)
Lemma find_from_spec (s pat : string) :
  forall pos, is_Some (find_from pos s pat) <-> substring pat s.
Proof.
  induction s as [|c s IH]; intros pos.
  - rewrite substring_nil. cbn [find_from].
    destruct (String.prefix pat EmptyString).
    + split; eauto.
    + split; [intros [x Hx]; discriminate|discriminate].
  - rewrite substring_cons. cbn [find_from].
    destruct (String.prefix pat (String c s)).
    + split; eauto.
    + rewrite IH. split; [now right|]. now intros [H|H].
Qed.

Lemma find_spec (s pat : string) : is_Some (find s pat) <-> substring pat s.
Proof. apply find_from_spec. Qed.

(** C5. For every mode string and every choices file that opens:
    [perf set mode] succeeds if and only if mode occurs as a substring of
    the line read from the choices file and the write to the profile file
    goes through (the permission check and the open pass); when it does
    not occur, the operation fails, no write is attempted and the profile
    file is unchanged. When the choices file does not open the operation
    fails as well. When the operation succeeds the write has been made:
    after reading the choices file, mode as typed was handed to the write
    on the profile file, which holds it when the write is taken. *)
Theorem set_performance_mode_substring (mode : string) (w : world) :
  (fst (set_performance_mode mode w) = true <->
   (exists c, files w !! PLATFORM_PROFILE_CHOICES_PATH = Some c /\
              f_open_r c = true /\ substring mode (getline c)) /\
   can_write w PLATFORM_PROFILE_PATH = true)
  /\
  (forall c, files w !! PLATFORM_PROFILE_CHOICES_PATH = Some c ->
             f_open_r c = true ->
             ~ substring mode (getline c) ->
             fst (set_performance_mode mode w) = false /\
             no_write w (snd (set_performance_mode mode w)) /\
             contents (snd (set_performance_mode mode w)) PLATFORM_PROFILE_PATH
             = contents w PLATFORM_PROFILE_PATH)
  /\
  (fst (set_performance_mode mode w) = true ->
   trace (snd (set_performance_mode mode w))
   = trace w ++ [SysOpenRead PLATFORM_PROFILE_CHOICES_PATH;
                 SysAccess PLATFORM_PROFILE_PATH W_OK;
                 SysOpenWrite PLATFORM_PROFILE_PATH;
                 SysWrite PLATFORM_PROFILE_PATH mode] /\
   (write_ok w PLATFORM_PROFILE_PATH = true ->
    contents (snd (set_performance_mode mode w)) PLATFORM_PROFILE_PATH
    = Some mode)).
Proof.
  rewrite set_performance_mode_run, read_file_run.
  destruct (files w !! PLATFORM_PROFILE_CHOICES_PATH) as [c|] eqn:Hc.
  2: { split; [|split; discriminate]. split; [discriminate|].
       now intros [(c & Hc' & _) _]. }
  destruct (f_open_r c) eqn:Ho.
  2: { split; [|split; [intros c' [= <-]; congruence|discriminate]].
       split; [discriminate|].
       intros [(c' & [= <-] & Ho' & _) _]. congruence. }
  pose proof (find_spec (getline c) mode) as Hfind.
  destruct (find (getline c) mode) as [pos|].
  - pose proof (write_then_report PLATFORM_PROFILE_PATH mode
                  ("Set performance mode to " +:+ mode +:+ endl)
                  (add_trace w [SysOpenRead PLATFORM_PROFILE_CHOICES_PATH]))
      as [Hfst Hst].
    cbv zeta in Hfst, Hst.
    change (can_write (add_trace w _) PLATFORM_PROFILE_PATH)
      with (can_write w PLATFORM_PROFILE_PATH) in Hfst.
    assert (Hsub : substring mode (getline c)) by (apply Hfind; eauto).
    split; [|split].
    + rewrite Hfst.
      split; [intros Hw; split; [eauto|exact Hw] | now intros [_ Hw]].
    + intros c' [= <-] _ Hn. contradiction.
    + intros Hok. destruct (Hst Hok) as [Ht Hcont]. split; [|exact Hcont].
      rewrite Ht. cbn [trace add_trace]. now rewrite <- app_assoc.
  - assert (Hsub : ~ substring mode (getline c)).
    { intros H. apply Hfind in H as [x Hx]. discriminate. }
    cbn [fst snd]. split; [|split; [|discriminate]].
    + split; [discriminate|]. intros [(c' & [= <-] & _ & H) _]. contradiction.
    + intros c' _ _ _. split; [reflexivity|].
      split; [apply no_write_read|reflexivity].
Qed.

Lemma set_performance_mode_substring_witness :
  (fst (set_performance_mode "turbo" world_perf) = false /\
   contents (snd (set_performance_mode "turbo" world_perf)) PLATFORM_PROFILE_PATH
   = Some ("balanced" +:+ nl)) /\
  contents (snd (set_performance_mode "performance" world_perf)) PLATFORM_PROFILE_PATH
  = Some "performance".
Proof.
  assert (Hn : ~ substring "turbo"
                 (getline (plain_file ("low-power balanced performance" +:+ nl)))).
  { intros H. apply find_spec in H as [x Hx]. vm_compute in Hx. discriminate. }
  split.
  - destruct (proj1 (proj2 (set_performance_mode_substring "turbo" world_perf))
                (plain_file ("low-power balanced performance" +:+ nl))
                ltac:(vm_compute; reflexivity) eq_refl Hn) as (Hfst & _ & Hc).
    split; [exact Hfst|]. rewrite Hc. vm_compute. reflexivity.
  - apply (proj2 (proj2 (set_performance_mode_substring "performance" world_perf)));
      vm_compute; reflexivity.
Defined.

(** *** Validation before the write *)

Lemma normalize_accepts (value : string) :
  value ∈ ["0"; "off"; "false"; "no"; "1"; "on"; "true"; "yes"] ->
  exists nv, normalize value = Some nv.
Proof.
  intros H. repeat (apply elem_of_cons in H as [->|H]; [eexists; reflexivity|]).
  now apply elem_of_nil in H.
Qed.

(** Counterexample to C2 as stated: "85abc" is outside the domain of
    [power] (it is no integer), yet the set handler returns true and
    writes: the three system calls of a write are made and the file
    holds "85" afterwards. *)
Lemma set_power_writes_outside_domain :
  integer_in_range 0 100 "85abc" = false /\
  fst (set_operation sample_globals SPower "85abc" (world_power "80")) = true /\
  trace (snd (set_operation sample_globals SPower "85abc" (world_power "80")))
  = [SysAccess POWER_PATH W_OK; SysOpenWrite POWER_PATH; SysWrite POWER_PATH "85"] /\
  contents (snd (set_operation sample_globals SPower "85abc" (world_power "80")))
           POWER_PATH = Some "85".
Proof. vm_compute. auto. Qed.

(** C2, amended. For every feature with a set operation and every
    candidate value: when the value is not one the handler lets through
    (for [power] and [kbd]: it does not begin, after optional white
    space, with a numeral of a value in range; for the on/off features:
    it is none of the eight tokens; for [perf]: the choices file does
    not open or the mode does not occur in its first line), the set
    operation returns false, no write is attempted (no system call of a
    write is made and the files are as before) and the backing file holds
    what it held. A value that is let through reaches the write: the
    result is then that of the permission check and the open. *)
Theorem invalid_value_is_not_written (g : globals) (f : settable)
    (value : string) (w : world) :
  (~ accepted_domain f w value ->
   fst (set_operation g f value w) = false /\
   no_write w (snd (set_operation g f value w)) /\
   contents (snd (set_operation g f value w)) (backing_file g f)
   = contents w (backing_file g f))
  /\
  (accepted_domain f w value ->
   fst (set_operation g f value w) = can_write w (backing_file g f)).
Proof.
  assert (H : (~ accepted_domain f w value ->
               fst (set_operation g f value w) = false /\
               no_write w (snd (set_operation g f value w))) /\
              (accepted_domain f w value ->
               fst (set_operation g f value w) = can_write w (backing_file g f))).
  { destruct f as [| | |f]; cbn [set_operation accepted_domain backing_file].
    - rewrite (stoi_in_range value 100) by (unfold INT_MAX; lia).
      destruct (set_power_cases value w) as [(val & Hs & Hv & ->)|[Hno [msg ->]]].
      + split; [intros Hn; destruct Hn; eauto|]. intros _.
        apply (proj1 (write_then_report POWER_PATH (to_string val)
                 ("Set charge threshold to " +:+ to_string val +:+ "%" +:+ endl) w)).
      + split; [intros _; split; [reflexivity|apply no_write_add_cerr]|].
        intros (v & Hv1 & Hv2). now destruct (Hno v Hv1).
    - rewrite set_performance_mode_run, read_file_run.
      destruct (files w !! PLATFORM_PROFILE_CHOICES_PATH) as [c|].
      2: { split; [intros _; split; [reflexivity|apply no_write_read]|].
           now intros (c & Hc & _). }
      destruct (f_open_r c) eqn:Ho.
      2: { split; [intros _; split; [reflexivity|apply no_write_read]|].
           intros (c' & [= <-] & Ho' & _). congruence. }
      pose proof (find_spec (getline c) value) as Hfind.
      destruct (find (getline c) value) as [pos|].
      + split.
        * intros Hn. destruct Hn. exists c.
          split; [reflexivity|]. split; [exact Ho|]. apply Hfind. eauto.
        * intros _.
          apply (proj1 (write_then_report PLATFORM_PROFILE_PATH value
                   ("Set performance mode to " +:+ value +:+ endl)
                   (add_trace w [SysOpenRead PLATFORM_PROFILE_CHOICES_PATH]))).
      + split; [intros _; split; [reflexivity|apply no_write_read]|].
        intros (c' & [= <-] & _ & Hsub). apply Hfind in Hsub as [x Hx]. discriminate.
    - rewrite (stoi_in_range value 3) by (unfold INT_MAX; lia).
      destruct (set_keyboard_backlight_cases value w)
        as [(val & Hs & Hv & ->)|[Hno [msg ->]]].
      + split; [intros Hn; destruct Hn; eauto|]. intros _.
        apply (proj1 (write_then_report KBD_BACKLIGHT_PATH (to_string val)
                 ("Set keyboard backlight level to " +:+ to_string val +:+ endl) w)).
      + split; [intros _; split; [reflexivity|apply no_write_add_cerr]|].
        intros (v & Hv1 & Hv2). now destruct (Hno v Hv1).
    - destruct (onoff_set_unfold g f value) as [label ->].
      rewrite set_onoff_run. split.
      + intros Hn. rewrite (normalize_other _ Hn).
        split; [reflexivity|apply no_write_add_cerr].
      + intros Hin. destruct (normalize_accepts _ Hin) as [nv ->].
        apply (proj1 (write_then_report (onoff_path g f) nv
                 (label +:+ enabled_text nv +:+ endl) w)). }
  destruct H as [Hbad Hgood]. split; [|exact Hgood].
  intros Hn. destruct (Hbad Hn) as [Hfst Hnw].
  repeat split; try assumption; try apply Hnw.
  now apply no_write_contents.
Qed.

Lemma invalid_value_is_not_written_witness :
  fst (set_operation sample_globals SPower "abc" (world_power "80")) = false /\
  contents (snd (set_operation sample_globals SPower "abc" (world_power "80"))) POWER_PATH
  = Some "80".
Proof.
  assert (Hbad : ~ accepted_domain SPower (world_power "80") "abc").
  { intros (v & Hp & _). apply stoi_of_numeric_prefix in Hp.
    change (stoi "abc") with StoiInvalidArgument in Hp.
    destruct (in_int v); discriminate. }
  destruct (proj1 (invalid_value_is_not_written sample_globals SPower "abc"
                     (world_power "80")) Hbad) as (Hfst & _ & Hc).
  split; [exact Hfst|]. cbn [backing_file] in Hc. rewrite Hc.
  vm_compute. reflexivity.
Defined.

(** *** [main] *)

Lemma add_cout_app (w : world) (a b : string) :
  add_cout (add_cout w a) b = add_cout w (a +:+ b).
Proof. unfold add_cout. cbn. now rewrite append_assoc. Qed.

Lemma add_cout_nil (w : world) : add_cout w EmptyString = w.
Proof. destruct w. unfold add_cout. cbn. now rewrite append_nil_r. Qed.

Lemma print_entries_run (commands : command_map) :
  forall w, print_entries commands w = (tt, add_cout w (help_lines (map snd commands))).
Proof.
  induction commands as [|[name cmd] rest IH]; intros w.
  - cbn. now rewrite add_cout_nil.
  - cbn [print_entries map snd help_lines]. unfold bind.
    now rewrite print_out_run, IH, add_cout_app, append_assoc.
Qed.

(** [commands["help"]->execute({})] prints the whole listing. *)
Lemma run_help_run (g : globals) (w : world) :
  run_help g registered w = (true, add_cout w help_text).
Proof.
  unfold run_help. change (map_find "help" registered) with (Some HelpCommand).
  cbn [execute]. unfold execute_help, print_help, bind, ret.
  rewrite print_out_run, print_entries_run, add_cout_app. reflexivity.
Qed.

Lemma map_find_registered (command : string) (cmd : Command) :
  (command, cmd) ∈ command_table -> map_find command registered = Some cmd.
Proof.
  intros H. unfold command_table in H.
  repeat (apply elem_of_cons in H as [[= -> ->]|H]; [reflexivity|]).
  now apply elem_of_nil in H.
Qed.

Lemma map_find_unregistered (command : string) :
  command ∉ map fst command_table -> map_find command registered = None.
Proof.
  intros H. cbn in H.
  change registered with
    [("fan", FanCommand); ("help", HelpCommand); ("kbd", KeyboardCommand);
     ("perf", PerformanceCommand); ("power", PowerCommand);
     ("record", RecordingCommand); ("start-on-lid-open", StartOnLidOpenCommand);
     ("usb-charge", UsbChargeCommand)].
  cbn [map_find].
  repeat (apply not_elem_of_cons in H as [? H]).
  repeat match goal with
         | Hne : command <> ?k |- _ =>
             apply String.eqb_neq in Hne; rewrite ?Hne; clear Hne
         end.
  reflexivity.
Qed.

(** C6. With no command ([argc < 2]) or with a first argument that is
    not a registered name, the process prints the full help listing (the
    header and the usage text of each of the eight commands, once) and
    exits with status 1, after the unknown-command error in the second
    case. With a registered name the handler of that name runs on the
    arguments from the command name on (index 0 the name, index 1 the
    subcommand, index 2 the value), and the exit status is 0 when it
    returns true and 1 when it returns false. *)
Theorem main_dispatch (g : globals) (w : world) :
  (forall argv, (length argv < 2)%nat ->
     main g argv w = (1, add_cout w help_text))
  /\
  (forall prog command rest,
     command ∉ map fst command_table ->
     main g (prog :: command :: rest) w
     = (1, add_cout (add_cerr w ("Error: Unknown command '" +:+ command +:+ "'" +:+ endl))
                    help_text))
  /\
  (forall prog command rest cmd,
     (command, cmd) ∈ command_table ->
     main g (prog :: command :: rest) w
     = (let (ok, w') := execute g registered cmd (command :: rest) w in
        (if ok then 0 else 1, w'))).
Proof.
  split; [|split].
  - intros argv Hlen.
    assert (Hshort : argv = [] \/ exists prog, argv = [prog]).
    { destruct argv as [|prog [|command rest]]; cbn in Hlen; [auto|eauto|lia]. }
    destruct Hshort as [->|[prog ->]];
      unfold main, bind, ret; now rewrite run_help_run.
  - intros prog command rest Hno.
    unfold main, bind, ret. rewrite (map_find_unregistered _ Hno).
    now rewrite print_err_run, run_help_run.
  - intros prog command rest cmd Hin.
    unfold main, bind, ret. now rewrite (map_find_registered _ _ Hin).
Qed.

Lemma main_dispatch_witness :
  main sample_globals ["samsung-cli"] (world_power "80")
  = (1, add_cout (world_power "80") help_text)
  /\ fst (main sample_globals ["samsung-cli"; "lid"; "read"] (world_power "80")) = 1
  /\ fst (main sample_globals ["samsung-cli"; "power"; "set"; "85"] (world_power "80")) = 0
  /\ fst (main sample_globals ["samsung-cli"; "power"; "set"; "101"] (world_power "80")) = 1.
Proof.
  destruct (main_dispatch sample_globals (world_power "80")) as (Hnone & Hunknown & Hknown).
  repeat apply conj.
  - apply Hnone. cbn. lia.
  - rewrite Hunknown; [reflexivity|].
    apply (bool_decide_unpack _). vm_compute. exact I.
  - rewrite (Hknown _ _ _ PowerCommand) by set_solver. vm_compute. reflexivity.
  - rewrite (Hknown _ _ _ PowerCommand) by set_solver. vm_compute. reflexivity.
Defined.

(** The help listing names every command once, in the key order of the
    map. *)
Example registered_commands :
  map snd registered = all_commands /\ NoDup all_commands /\
  forall c : Command, c ∈ all_commands.
Proof.
  split; [reflexivity|]. split.
  - apply (bool_decide_unpack _). vm_compute. exact I.
  - intros []; set_solver.
Qed.

(** ** Further properties of the code *)

(** *** [file_ops], failure and frame *)

(** X1. [write_file] has two failures and tells them apart. When the
    permission check fails, the only system call is that [access]: the
    file is never opened. When the check passes and the open fails, the
    file is not truncated. In both cases every file is as before and the
    matching error text goes to [cerr]. *)
Theorem write_file_failure_modes (path value : string) (w : world) :
  (writable w path = false ->
   file_ops.write_file path value w
   = (false, add_cerr (add_trace w [SysAccess path W_OK])
               ("Error: Permission denied. Run with sudo." +:+ endl)))
  /\
  (writable w path = true -> can_write w path = false ->
   file_ops.write_file path value w
   = (false, add_cerr (add_trace w [SysAccess path W_OK; SysOpenWrite path])
               ("Error: Could not write to " +:+ path +:+ endl))).
Proof.
  rewrite write_file_run. unfold writable, can_write.
  destruct (files w !! path) as [f|]; [|split; [reflexivity|discriminate]].
  destruct (f_access_w f); split; try discriminate; try reflexivity.
  cbn [andb]. intros _ ->. reflexivity.
Qed.

Lemma write_file_failure_modes_witness :
  files (snd (file_ops.write_file "/nowhere" "1" (world_power "80")))
  = files (world_power "80")
  /\ trace (snd (file_ops.write_file "/nowhere" "1" (world_power "80")))
     = [SysAccess "/nowhere" W_OK].
Proof.
  rewrite (proj1 (write_file_failure_modes "/nowhere" "1" (world_power "80"))
             ltac:(vm_compute; reflexivity)).
  split; reflexivity.
Defined.

(** X2. When the permission check and the open both pass, [write_file]
    returns true whether or not the write itself is taken, since the
    stream is not tested after [file << value]. It has handed exactly
    the value to the write. If the write is taken the file holds exactly
    the value (nothing of the old contents is left, no newline is added);
    if it is not, the file is left empty, as the open truncated it, and
    nothing is reported. In both cases the file keeps its permissions and
    every other file, the directories and both output streams are as
    they were. *)
Theorem write_file_success_frame (path value : string) (w : world) :
  can_write w path = true ->
  exists f w',
    files w !! path = Some f /\
    file_ops.write_file path value w = (true, w') /\
    trace w' = trace w ++ [SysAccess path W_OK; SysOpenWrite path; SysWrite path value] /\
    files w' !! path
    = Some (set_data f (if f_write_ok f then value else EmptyString)) /\
    (forall p, p <> path -> files w' !! p = files w !! p) /\
    dirs w' = dirs w /\ cout w' = cout w /\ cerr w' = cerr w.
Proof.
  unfold can_write. intros Hc. rewrite write_file_run.
  destruct (files w !! path) as [f|] eqn:Hf; [|discriminate].
  apply andb_true_iff in Hc as [-> ->].
  exists f. eexists. split; [reflexivity|]. split; [reflexivity|].
  cbn [files dirs cout cerr trace add_trace with_file].
  split; [reflexivity|]. split; [apply lookup_insert_eq|].
  split; [|auto]. intros p Hp. now apply lookup_insert_ne.
Qed.

Lemma write_file_success_frame_witness :
  (exists w',
     file_ops.write_file PLATFORM_PROFILE_PATH "performance" world_perf = (true, w') /\
     contents w' PLATFORM_PROFILE_PATH = Some "performance" /\
     files w' !! PLATFORM_PROFILE_CHOICES_PATH
     = files world_perf !! PLATFORM_PROFILE_CHOICES_PATH)
  /\
  (exists w',
     file_ops.write_file POWER_PATH "85" world_refusing = (true, w') /\
     contents w' POWER_PATH = Some EmptyString /\ cerr w' = EmptyString).
Proof.
  split.
  - destruct (write_file_success_frame PLATFORM_PROFILE_PATH "performance" world_perf
                ltac:(vm_compute; reflexivity))
      as (f & w' & Hf & Hrun & _ & Hnew & Hframe & _).
    exists w'. split; [exact Hrun|]. split; [|apply Hframe; discriminate].
    unfold contents. rewrite Hnew. vm_compute in Hf. injection Hf as <-. reflexivity.
  - destruct (write_file_success_frame POWER_PATH "85" world_refusing
                ltac:(vm_compute; reflexivity))
      as (f & w' & Hf & Hrun & _ & Hnew & _ & _ & _ & Hcerr).
    exists w'. split; [exact Hrun|]. split; [|exact Hcerr].
    unfold contents. rewrite Hnew. vm_compute in Hf. injection Hf as <-. reflexivity.
Defined.

Lemma opens_add_trace (w : world) (evs : list syscall) (p : string) :
  opens (add_trace w evs) p = opens w p.
Proof. reflexivity. Qed.

Lemma read_file_opens (path value : string) (w : world) :
  file_ops.read_file path value w =
  match opens w path with
  | Some f => ((true, getline f), add_trace w [SysOpenRead path])
  | None => ((false, value),
             add_cerr (add_trace w [SysOpenRead path]) (open_error path))
  end.
Proof.
  rewrite read_file_run. unfold opens, open_error.
  destruct (files w !! path) as [f|]; [destruct (f_open_r f)|]; reflexivity.
Qed.

(** X3. When the file does not open, [read_file] returns false, leaves
    the caller's string as it was and reports the path on [cerr], and the
    failed open is the only system call it has made. Whether the file
    opens or not, [read_file] changes neither the files nor [cout]. *)
Theorem read_file_failure (path value : string) (w : world) :
  (opens w path = None ->
   fst (file_ops.read_file path value w) = (false, value) /\
   cerr (snd (file_ops.read_file path value w)) = cerr w +:+ open_error path /\
   trace (snd (file_ops.read_file path value w)) = trace w ++ [SysOpenRead path])
  /\
  files (snd (file_ops.read_file path value w)) = files w /\
  cout (snd (file_ops.read_file path value w)) = cout w.
Proof.
  rewrite read_file_opens. destruct (opens w path) as [f|].
  - split; [discriminate|]. repeat split.
  - repeat split.
Qed.

Lemma read_file_failure_witness :
  fst (file_ops.read_file FAN_PATH "kept" (world_power "80")) = (false, "kept") /\
  cerr (snd (file_ops.read_file FAN_PATH "kept" (world_power "80")))
  = "Error: Could not open /sys/bus/acpi/devices/PNP0C0B:00/fan_speed_rpm" +:+ nl.
Proof.
  destruct (proj1 (read_file_failure FAN_PATH "kept" (world_power "80"))
              ltac:(vm_compute; reflexivity)) as (Hfst & Hcerr & _).
  split; [exact Hfst|]. rewrite Hcerr. reflexivity.
Defined.

(** *** The read handlers *)

(** The body the read methods share: read the first line, print it in
    some form. *)
Lemma reader_run (path : string) (text : string -> string) (w : world) :
  (r <- file_ops.read_file path EmptyString ;;
   let (ok, value) := r in
   if negb ok then ret false
   else print_out (text value) ;; ret true) w
  = match opens w path with
    | Some f => (true, add_cout (add_trace w [SysOpenRead path]) (text (getline f)))
    | None => (false, add_cerr (add_trace w [SysOpenRead path]) (open_error path))
    end.
Proof.
  unfold bind, ret. rewrite read_file_opens.
  destruct (opens w path) as [f|]; reflexivity.
Qed.

Lemma reading_op_run (rd : reading) (w : world) :
  reading_op rd w
  = match opens w (reading_path rd) with
    | Some f =>
        (true, add_cout (add_trace w [SysOpenRead (reading_path rd)])
                        (reading_text rd (getline f)))
    | None =>
        (false, add_cerr (add_trace w [SysOpenRead (reading_path rd)])
                         (open_error (reading_path rd)))
    end.
Proof.
  destruct rd; cbn [reading_op reading_path].
  - apply (reader_run POWER_PATH (reading_text RdPower)).
  - apply (reader_run FAN_PATH (reading_text RdFan)).
  - apply (reader_run PLATFORM_PROFILE_PATH (reading_text RdPerf)).
  - apply (reader_run PLATFORM_PROFILE_CHOICES_PATH (reading_text RdPerfList)).
  - apply (reader_run KBD_BACKLIGHT_PATH (reading_text RdKbd)).
Qed.

Lemma onoff_read_run (g : globals) (f : onoff_feature) (w : world) :
  onoff_read g f w
  = match opens w (onoff_path g f) with
    | Some c =>
        (true, add_cout (add_trace w [SysOpenRead (onoff_path g f)])
                        (onoff_label f +:+ enabled_text (getline c) +:+ endl))
    | None =>
        (false, add_cerr (add_trace w [SysOpenRead (onoff_path g f)])
                         (open_error (onoff_path g f)))
    end.
Proof.
  destruct f; cbn [onoff_read onoff_path onoff_label];
    unfold read_recording_status, read_status_lid, read_status_usb, read_onoff.
  - apply (reader_run _ (fun v => "Recording permission: " +:+ enabled_text v +:+ endl)).
  - apply (reader_run _ (fun v => "Start on lid open: " +:+ enabled_text v +:+ endl)).
  - apply (reader_run _ (fun v => "USB charge: " +:+ enabled_text v +:+ endl)).
Qed.

(** X4. [power read], [fan read], [perf read], [perf list] and [kbd read]
    succeed exactly when their file opens. They then print the label, the
    first line of the file (an empty line when the file is empty or the
    read fails) and the unit, and nothing on [cerr]; otherwise they print
    nothing on [cout] and the open error on [cerr]. *)
Theorem reading_prints_first_line (rd : reading) (w : world) :
  (fst (reading_op rd w) = true <-> is_Some (opens w (reading_path rd)))
  /\
  (forall f, opens w (reading_path rd) = Some f ->
     cout (snd (reading_op rd w)) = cout w +:+ reading_text rd (getline f) /\
     cerr (snd (reading_op rd w)) = cerr w)
  /\
  (opens w (reading_path rd) = None ->
     cout (snd (reading_op rd w)) = cout w /\
     cerr (snd (reading_op rd w)) = cerr w +:+ open_error (reading_path rd)).
Proof.
  rewrite reading_op_run. destruct (opens w (reading_path rd)) as [f|].
  - split; [split; eauto|]. split; [|discriminate].
    intros f' [= <-]. split; reflexivity.
  - split; [split; [discriminate|intros [x Hx]; discriminate]|].
    split; [discriminate|]. intros _. split; reflexivity.
Qed.

Lemma reading_prints_first_line_witness :
  cout (snd (reading_op RdPerfList world_perf))
  = "Available performance modes: low-power balanced performance" +:+ nl.
Proof.
  destruct (proj1 (proj2 (reading_prints_first_line RdPerfList world_perf))
              (plain_file ("low-power balanced performance" +:+ nl))
              ltac:(vm_compute; reflexivity)) as [Hout _].
  rewrite Hout. vm_compute. reflexivity.
Defined.

(** X5. The read-out of an on/off feature prints "Enabled" exactly when the
    first line of the attribute is the one character "1"; any other line
    (also an empty file, "01", "1 " or "on") is shown as "Disabled". *)
Theorem onoff_read_enabled (g : globals) (f : onoff_feature) (w : world)
    (c : file) :
  opens w (onoff_path g f) = Some c ->
  fst (onoff_read g f w) = true /\
  (getline c = "1" ->
   cout (snd (onoff_read g f w)) = cout w +:+ onoff_label f +:+ "Enabled" +:+ endl) /\
  (getline c <> "1" ->
   cout (snd (onoff_read g f w)) = cout w +:+ onoff_label f +:+ "Disabled" +:+ endl).
Proof.
  intros Ho. rewrite onoff_read_run, Ho. split; [reflexivity|].
  cbn [snd cout add_cout add_trace]. unfold enabled_text.
  split; intros H.
  - now rewrite H.
  - apply String.eqb_neq in H. now rewrite H.
Qed.

Lemma onoff_read_enabled_witness :
  cout (snd (onoff_read sample_globals FRecord world_onoff))
  = "Recording permission: Enabled" +:+ nl
  /\ cout (snd (onoff_read sample_globals FUsb world_onoff))
  = "USB charge: Disabled" +:+ nl.
Proof.
  split.
  - destruct (onoff_read_enabled sample_globals FRecord world_onoff (plain_file "1")
                ltac:(vm_compute; reflexivity)) as (_ & Hen & _).
    rewrite Hen by (vm_compute; reflexivity). reflexivity.
  - destruct (onoff_read_enabled sample_globals FUsb world_onoff (plain_file "0")
                ltac:(vm_compute; reflexivity)) as (_ & _ & Hdis).
    rewrite Hdis by (vm_compute; discriminate). reflexivity.
Defined.

(** *** The handlers as a whole *)

Lemma tidy_error (w : world) (evs : list syscall) (msg : string) :
  msg <> EmptyString ->
  tidy_outcome w (false, add_cerr (add_trace w evs) msg).
Proof. intros Hm. repeat split. now exists msg. Qed.

Lemma tidy_error_now (w : world) (msg : string) :
  msg <> EmptyString -> tidy_outcome w (false, add_cerr w msg).
Proof. intros Hm. repeat split. now exists msg. Qed.

Lemma open_error_nonempty (path : string) : open_error path <> EmptyString.
Proof. unfold open_error. rewrite append_cons. discriminate. Qed.

Lemma tidy_write (path value msg : string) (w : world) :
  tidy_outcome w
    match file_ops.write_file path value w with
    | (true, w') => (true, add_cout w' msg)
    | (false, w') => (false, w')
    end.
Proof.
  rewrite write_file_run.
  destruct (files w !! path) as [f|];
    [destruct (f_access_w f); [destruct (f_open_w f)|]|].
  - split; reflexivity.
  - apply tidy_error. rewrite append_cons. discriminate.
  - apply tidy_error. rewrite append_cons. discriminate.
  - apply tidy_error. rewrite append_cons. discriminate.
Qed.

Lemma tidy_reader (path : string) (text : string -> string) (w : world) :
  tidy_outcome w
    match opens w path with
    | Some f => (true, add_cout (add_trace w [SysOpenRead path]) (text (getline f)))
    | None => (false, add_cerr (add_trace w [SysOpenRead path]) (open_error path))
    end.
Proof.
  destruct (opens w path).
  - split; reflexivity.
  - apply tidy_error, open_error_nonempty.
Qed.

Lemma no_write_reader (path : string) (text : string -> string) (w : world) :
  no_write w (snd
    match opens w path with
    | Some f => (true, add_cout (add_trace w [SysOpenRead path]) (text (getline f)))
    | None => (false, add_cerr (add_trace w [SysOpenRead path]) (open_error path))
    end).
Proof.
  destruct (opens w path); (split; [reflexivity|]); now exists [SysOpenRead path].
Qed.

Lemma no_write_add_cout (w : world) (s : string) : no_write w (add_cout w s).
Proof. split; [reflexivity|]. exists []. cbn. now rewrite app_nil_r. Qed.

(** Each [read] method is one of the two shapes above. *)
Lemma read_handler_run (g : globals) (cmd : Command) (op : M bool) (w : world) :
  read_handler g cmd = Some op ->
  exists path text,
    op w = match opens w path with
           | Some f => (true, add_cout (add_trace w [SysOpenRead path]) (text (getline f)))
           | None => (false, add_cerr (add_trace w [SysOpenRead path]) (open_error path))
           end.
Proof.
  destruct cmd; intros [= <-].
  - exists POWER_PATH, (reading_text RdPower). apply (reading_op_run RdPower).
  - exists FAN_PATH, (reading_text RdFan). apply (reading_op_run RdFan).
  - exists PLATFORM_PROFILE_PATH, (reading_text RdPerf). apply (reading_op_run RdPerf).
  - exists (onoff_path g FRecord),
      (fun v => onoff_label FRecord +:+ enabled_text v +:+ endl).
    apply (onoff_read_run g FRecord).
  - exists KBD_BACKLIGHT_PATH, (reading_text RdKbd). apply (reading_op_run RdKbd).
  - exists (onoff_path g FLid),
      (fun v => onoff_label FLid +:+ enabled_text v +:+ endl).
    apply (onoff_read_run g FLid).
  - exists (onoff_path g FUsb),
      (fun v => onoff_label FUsb +:+ enabled_text v +:+ endl).
    apply (onoff_read_run g FUsb).
Qed.

Lemma tidy_set_handler (g : globals) (cmd : Command) (op : string -> M bool)
    (value : string) (w : world) :
  set_handler g cmd = Some op -> tidy_outcome w (op value w).
Proof.
  assert (Honoff : forall path label,
             tidy_outcome w (set_onoff path label value w)).
  { intros path label. rewrite set_onoff_run.
    destruct (normalize value); [apply tidy_write|].
    apply tidy_error_now. rewrite append_cons. discriminate. }
  destruct cmd; intros [= <-]; try apply Honoff.
  - rewrite set_power_run. destruct (stoi value) as [val| |].
    + destruct ((val <? 0) || (val >? 100)); [|apply tidy_write].
      apply tidy_error_now. rewrite append_cons. discriminate.
    + apply tidy_error_now. rewrite append_cons. discriminate.
    + apply tidy_error_now. rewrite append_cons. discriminate.
  - rewrite set_performance_mode_run, read_file_opens.
    destruct (opens w PLATFORM_PROFILE_CHOICES_PATH) as [c|].
    + destruct (find (getline c) value).
      * apply (tidy_write PLATFORM_PROFILE_PATH value _
                 (add_trace w [SysOpenRead PLATFORM_PROFILE_CHOICES_PATH])).
      * apply tidy_error. rewrite append_cons. discriminate.
    + apply tidy_error, open_error_nonempty.
  - rewrite set_keyboard_backlight_run. destruct (stoi value) as [val| |].
    + destruct ((val <? 0) || (val >? 3)); [|apply tidy_write].
      apply tidy_error_now. rewrite append_cons. discriminate.
    + apply tidy_error_now. rewrite append_cons. discriminate.
    + apply tidy_error_now. rewrite append_cons. discriminate.
Qed.

Lemma execute_help_run (cmds : command_map) (args : list string) (w : world) :
  execute_help cmds args w
  = (true, add_cout w (help_header +:+ help_lines (map snd cmds))).
Proof.
  unfold execute_help, print_help, bind, ret.
  now rewrite print_out_run, print_entries_run, add_cout_app.
Qed.

(** The ways [execute_read_set] can go. *)
Lemma execute_read_set_cases (what cmd : string) (do_read : M bool)
    (do_set : string -> M bool) (args : list string) (w : world) :
  ((match args with
    | _ :: sub :: rest =>
        negb (String.eqb sub "read" || String.eqb sub "set")
        || (String.eqb sub "set" && match rest with [] => true | _ => false end)
    | _ => true
    end = true) /\
   exists msg, msg <> EmptyString /\
     execute_read_set what cmd do_read do_set args w = (false, add_cerr w msg))
  \/ (exists a rest, args = a :: "read" :: rest /\
        execute_read_set what cmd do_read do_set args w = do_read w)
  \/ (exists a v rest, args = a :: "set" :: v :: rest /\
        execute_read_set what cmd do_read do_set args w = do_set v w).
Proof.
  unfold execute_read_set.
  destruct args as [|a [|sub rest]].
  - left. split; [reflexivity|]. eexists. split; [|reflexivity].
    rewrite append_cons. discriminate.
  - left. split; [reflexivity|]. eexists. split; [|reflexivity].
    rewrite append_cons. discriminate.
  - destruct (String.eqb_spec sub "read") as [->|Hr].
    + right. left. now exists a, rest.
    + destruct (String.eqb_spec sub "set") as [->|Hs].
      * destruct rest as [|v rest].
        -- left. split; [reflexivity|]. eexists. split; [|reflexivity].
           rewrite append_cons. discriminate.
        -- right. right. now exists a, v, rest.
      * left. split; [reflexivity|]. eexists. split; [|reflexivity].
        rewrite append_cons. discriminate.
Qed.

(** The ways a call of [execute] can go. *)
Lemma execute_cases (g : globals) (cmds : command_map) (cmd : Command)
    (args : list string) (w : world) :
  (cmd = HelpCommand /\
   execute g cmds cmd args w
   = (true, add_cout w (help_header +:+ help_lines (map snd cmds))))
  \/ (malformed cmd args = true /\
      exists msg, msg <> EmptyString /\
        execute g cmds cmd args w = (false, add_cerr w msg))
  \/ (malformed cmd args = false /\
      exists a rest op, args = a :: "read" :: rest /\
        read_handler g cmd = Some op /\ execute g cmds cmd args w = op w)
  \/ (malformed cmd args = false /\
      exists a rest, cmd = PerformanceCommand /\ args = a :: "list" :: rest /\
        execute g cmds cmd args w = list_performance_modes w)
  \/ (malformed cmd args = false /\
      exists a v rest op, args = a :: "set" :: v :: rest /\
        set_handler g cmd = Some op /\ execute g cmds cmd args w = op v w).
Proof.
  assert (Hrs : forall what name do_read do_set,
    ((match args with
        | _ :: sub :: rest =>
            negb (String.eqb sub "read" || String.eqb sub "set")
            || (String.eqb sub "set" && match rest with [] => true | _ => false end)
        | _ => true
      end = true) /\
     exists msg, msg <> EmptyString /\
       execute_read_set what name do_read do_set args w = (false, add_cerr w msg))
    \/ ((match args with
        | _ :: sub :: rest =>
            negb (String.eqb sub "read" || String.eqb sub "set")
            || (String.eqb sub "set" && match rest with [] => true | _ => false end)
        | _ => true
      end = false) /\
        ((exists a rest, args = a :: "read" :: rest /\
            execute_read_set what name do_read do_set args w = do_read w)
         \/ (exists a v rest, args = a :: "set" :: v :: rest /\
            execute_read_set what name do_read do_set args w = do_set v w)))).
  { intros what name do_read do_set.
    destruct (execute_read_set_cases what name do_read do_set args w)
      as [H|[(a & rest & -> & H)|(a & v & rest & -> & H)]]; [now left| |].
    - right. split; [reflexivity|]. left. now exists a, rest.
    - right. split; [reflexivity|]. right. now exists a, v, rest. }
  destruct cmd; cbn [execute].
  - (* power *)
    unfold execute_power, malformed, known_subcommand.
    destruct args as [|a [|sub rest]].
    + right. left. split; [reflexivity|]. eexists. split; [|reflexivity].
      rewrite append_cons. discriminate.
    + right. left. split; [reflexivity|]. eexists. split; [|reflexivity].
      rewrite append_cons. discriminate.
    + destruct (String.eqb_spec sub "read") as [->|Hr].
      * right. right. left. split; [reflexivity|]. now exists a, rest, read_power.
      * destruct (String.eqb_spec sub "set") as [->|Hs].
        -- destruct rest as [|v rest].
           ++ right. left. split; [reflexivity|]. eexists. split; [|reflexivity].
              rewrite append_cons. discriminate.
           ++ right. right. right. right. split; [reflexivity|].
              now exists a, v, rest, set_power.
        -- right. left. split; [reflexivity|]. eexists. split; [|reflexivity].
           rewrite append_cons. discriminate.
  - (* fan *)
    unfold execute_fan, malformed, known_subcommand.
    destruct args as [|a [|sub rest]].
    + right. left. split; [reflexivity|]. eexists. split; [|reflexivity].
      rewrite append_cons. discriminate.
    + right. left. split; [reflexivity|]. eexists. split; [|reflexivity].
      rewrite append_cons. discriminate.
    + destruct (String.eqb_spec sub "read") as [->|Hr].
      * right. right. left. split; [reflexivity|]. now exists a, rest, read_fan.
      * right. left. split; [reflexivity|]. eexists. split; [|reflexivity].
        rewrite append_cons. discriminate.
  - (* perf *)
    unfold execute_performance, malformed, known_subcommand.
    destruct args as [|a [|sub rest]].
    + right. left. split; [reflexivity|]. eexists. split; [|reflexivity].
      rewrite append_cons. discriminate.
    + right. left. split; [reflexivity|]. eexists. split; [|reflexivity].
      rewrite append_cons. discriminate.
    + destruct (String.eqb_spec sub "read") as [->|Hr].
      * right. right. left. split; [reflexivity|].
        now exists a, rest, read_performance_mode.
      * destruct (String.eqb_spec sub "set") as [->|Hs].
        -- destruct rest as [|v rest].
           ++ right. left. split; [reflexivity|]. eexists. split; [|reflexivity].
              rewrite append_cons. discriminate.
           ++ right. right. right. right. split; [reflexivity|].
              now exists a, v, rest, set_performance_mode.
        -- destruct (String.eqb_spec sub "list") as [->|Hl].
           ++ right. right. right. left. split; [reflexivity|]. now exists a, rest.
           ++ right. left. split; [reflexivity|]. eexists. split; [|reflexivity].
              rewrite append_cons. discriminate.
  - (* record *)
    unfold execute_recording, malformed, known_subcommand.
    destruct (Hrs "recording" "record" (read_recording_status g) (set_recording_status g))
      as [[Hm H]|[Hm [(a & rest & -> & H)|(a & v & rest & -> & H)]]].
    + right. left. now split.
    + right. right. left. split; [exact Hm|]. now exists a, rest, (read_recording_status g).
    + right. right. right. right. split; [exact Hm|].
      now exists a, v, rest, (set_recording_status g).
  - (* kbd *)
    unfold execute_keyboard, malformed, known_subcommand.
    destruct (Hrs "keyboard" "kbd" read_keyboard_backlight set_keyboard_backlight)
      as [[Hm H]|[Hm [(a & rest & -> & H)|(a & v & rest & -> & H)]]].
    + right. left. now split.
    + right. right. left. split; [exact Hm|]. now exists a, rest, read_keyboard_backlight.
    + right. right. right. right. split; [exact Hm|].
      now exists a, v, rest, set_keyboard_backlight.
  - (* lid *)
    unfold execute_lid, malformed, known_subcommand.
    destruct (Hrs "start-on-lid-open" "start-on-lid-open" (read_status_lid g) (set_status_lid g))
      as [[Hm H]|[Hm [(a & rest & -> & H)|(a & v & rest & -> & H)]]].
    + right. left. now split.
    + right. right. left. split; [exact Hm|]. now exists a, rest, (read_status_lid g).
    + right. right. right. right. split; [exact Hm|].
      now exists a, v, rest, (set_status_lid g).
  - (* usb *)
    unfold execute_usb, malformed, known_subcommand.
    destruct (Hrs "usb-charge" "usb-charge" (read_status_usb g) (set_status_usb g))
      as [[Hm H]|[Hm [(a & rest & -> & H)|(a & v & rest & -> & H)]]].
    + right. left. now split.
    + right. right. left. split; [exact Hm|]. now exists a, rest, (read_status_usb g).
    + right. right. right. right. split; [exact Hm|].
      now exists a, v, rest, (set_status_usb g).
  - left. split; [reflexivity|]. apply execute_help_run.
Qed.

Lemma execute_tidy (g : globals) (cmds : command_map)
    (cmd : Command) (args : list string) (w : world) :
  tidy_outcome w (execute g cmds cmd args w).
Proof.
  destruct (execute_cases g cmds cmd args w)
    as [[_ ->]|[[_ (msg & Hm & ->)]|[[_ (a & rest & op & _ & Hop & ->)]
       |[[_ (a & rest & _ & _ & ->)]|[_ (a & v & rest & op & _ & Hop & ->)]]]]].
  - split; reflexivity.
  - now apply tidy_error_now.
  - destruct (read_handler_run g cmd op w Hop) as (path & text & ->).
    apply tidy_reader.
  - rewrite (reading_op_run RdPerfList). apply tidy_reader.
  - now apply (tidy_set_handler g cmd).
Qed.

(** X6. No handler fails silently and none mixes its streams. For every
    command and argument vector: when [execute] returns false, an error
    text was appended to [cerr] while the files, the directories and
    [cout] are unchanged (so a failed [set] never prints its
    confirmation and never leaves a truncated file); when it returns
    true, nothing was written to [cerr]. *)
Theorem execute_failure_is_reported (g : globals) (cmds : command_map)
    (cmd : Command) (args : list string) (w : world) :
  (fst (execute g cmds cmd args w) = false ->
   reported_failure w (snd (execute g cmds cmd args w)))
  /\
  (fst (execute g cmds cmd args w) = true ->
   cerr (snd (execute g cmds cmd args w)) = cerr w).
Proof.
  pose proof (execute_tidy g cmds cmd args w) as H.
  unfold tidy_outcome in H.
  destruct (fst (execute g cmds cmd args w)).
  - split; [discriminate|]. intros _. apply H.
  - split; [intros _; exact H|discriminate].
Qed.

Lemma execute_failure_is_reported_witness :
  reported_failure (world_power "80")
    (snd (execute sample_globals registered PowerCommand ["power"; "set"; "101"]
            (world_power "80")))
  /\ cerr (snd (execute sample_globals registered PowerCommand ["power"; "set"; "55"]
                  (world_power "80"))) = "".
Proof.
  split.
  - apply (proj1 (execute_failure_is_reported sample_globals registered PowerCommand
                    ["power"; "set"; "101"] (world_power "80"))).
    vm_compute. reflexivity.
  - apply (proj2 (execute_failure_is_reported sample_globals registered PowerCommand
                    ["power"; "set"; "55"] (world_power "80"))).
    vm_compute. reflexivity.
Defined.

Lemma execute_no_write (g : globals) (cmds : command_map)
    (cmd : Command) (args : list string) (w : world) :
  is_set_call args = false \/ set_handler g cmd = None ->
  no_write w (snd (execute g cmds cmd args w)).
Proof.
  intros Hns.
  destruct (execute_cases g cmds cmd args w)
    as [[_ ->]|[[_ (msg & Hm & ->)]|[[_ (a & rest & op & _ & Hop & ->)]
       |[[_ (a & rest & _ & _ & ->)]|[_ (a & v & rest & op & -> & Hop & _)]]]]].
  - apply no_write_add_cout.
  - apply no_write_add_cerr.
  - destruct (read_handler_run g cmd op w Hop) as (path & text & ->).
    apply no_write_reader.
  - rewrite (reading_op_run RdPerfList). apply no_write_reader.
  - destruct Hns as [Hns|Hns]; [discriminate|congruence].
Qed.

(** X7. Only a [set] with a value, on a class that has a [set], can write.
    Every other call of [execute] ([read], [list], [help], a malformed
    vector, anything given to [fan]) makes no system call of a write and
    leaves the files as they are. *)
Theorem execute_writes_only_on_set (g : globals) (cmds : command_map)
    (cmd : Command) (args : list string) (w : world) :
  is_set_call args = false \/ set_handler g cmd = None ->
  no_write w (snd (execute g cmds cmd args w)).
Proof.
  intros [Hcall|Hnone].
  - apply execute_no_write. now left.
  - destruct cmd; try discriminate Hnone; apply execute_no_write; now right.
Qed.

Lemma execute_writes_only_on_set_witness :
  no_write (world_power "80")
    (snd (execute sample_globals registered FanCommand ["fan"; "set"; "3000"]
            (world_power "80")))
  /\ no_write (world_power "80")
    (snd (execute sample_globals registered PowerCommand ["power"; "read"]
            (world_power "80"))).
Proof.
  split.
  - apply execute_writes_only_on_set. right. reflexivity.
  - apply execute_writes_only_on_set. left. reflexivity.
Defined.

(** X8. Argument errors are found before the file system is touched: with no
    subcommand, with a subcommand the class does not have ([set] and
    [list] for [fan], [list] for all but [perf], any other word), or with
    [set] and no value, [execute] returns false after printing an error
    and makes no system call at all. *)
Theorem malformed_call_is_rejected (g : globals) (cmds : command_map)
    (cmd : Command) (args : list string) (w : world) :
  malformed cmd args = true ->
  exists msg,
    msg <> EmptyString /\
    execute g cmds cmd args w = (false, add_cerr w msg).
Proof.
  intros Hm.
  destruct (execute_cases g cmds cmd args w)
    as [[-> _]|[[_ H]|[[Hm' _]|[[Hm' _]|[Hm' _]]]]];
    first [exact H | congruence | discriminate].
Qed.

Lemma malformed_call_is_rejected_witness :
  exists msg,
    msg <> EmptyString /\
    execute sample_globals registered FanCommand ["fan"; "set"; "3000"] world_perf
    = (false, add_cerr world_perf msg).
Proof.
  apply (malformed_call_is_rejected sample_globals registered FanCommand
           ["fan"; "set"; "3000"] world_perf eq_refl).
Defined.

(** *** Set, then read *)

Lemma first_line_one_line (s : string) : one_line (first_line s) = true.
Proof.
  unfold one_line. induction s as [|c s IH]; [reflexivity|].
  cbn [first_line]. destruct (code c =? 10) eqn:Hc; [reflexivity|].
  cbn [all_chars]. now rewrite Hc, IH.
Qed.

Lemma getline_one_line (f : file) : one_line (getline f) = true.
Proof.
  unfold getline. destruct (f_read_ok f); [apply first_line_one_line|reflexivity].
Qed.

Lemma substring_one_line (pat s : string) :
  substring pat s -> one_line s = true -> one_line pat = true.
Proof.
  intros (pre & post & ->). unfold one_line.
  rewrite !all_chars_app, !andb_true_iff. tauto.
Qed.

(** What a handler leaves behind when its write was taken, and what the
    read-out of the same file then finds. *)
Lemma written_then_opens (path value msg : string) (w : world) (f : file) :
  files w !! path = Some f ->
  f_access_w f = true -> f_open_w f = true -> f_write_ok f = true ->
  f_open_r f = true -> f_read_ok f = true ->
  one_line value = true ->
  exists w1,
    match file_ops.write_file path value w with
    | (true, w') => (true, add_cout w' msg)
    | (false, w') => (false, w')
    end = (true, w1) /\
    contents w1 path = Some value /\
    exists f1, opens w1 path = Some f1 /\ getline f1 = value.
Proof.
  intros Hf Haw How Hwr Hor Hrd Hline.
  rewrite write_file_run, Hf, Haw, How, Hwr. eexists. split; [reflexivity|].
  unfold contents, opens. cbn [files add_cout add_trace with_file].
  rewrite lookup_insert_eq. cbn [f_open_r set_data fmap option_fmap option_map f_data].
  rewrite Hor. split; [reflexivity|].
  eexists. split; [reflexivity|].
  unfold getline. cbn [f_read_ok f_data set_data]. rewrite Hrd.
  now apply first_line_id.
Qed.

(** X9. For each on/off feature whose attribute can be written and read
    and keeps what is written to it: a
    [set] with one of "1", "on", "true", "yes" succeeds and the [read]
    that follows prints "Enabled"; with one of "0", "off", "false", "no"
    it prints "Disabled". *)
Theorem onoff_set_then_read (g : globals) (f : onoff_feature)
    (token : string) (w : world) (c : file) :
  files w !! onoff_path g f = Some c ->
  f_access_w c = true -> f_open_w c = true -> f_write_ok c = true ->
  f_open_r c = true -> f_read_ok c = true ->
  token ∈ ["0"; "off"; "false"; "no"; "1"; "on"; "true"; "yes"] ->
  exists w1 w2,
    onoff_set g f token w = (true, w1) /\
    onoff_read g f w1 = (true, w2) /\
    cout w2 = cout w1 +:+ onoff_label f +:+
              (if bool_decide (token ∈ ["1"; "on"; "true"; "yes"])
               then "Enabled" else "Disabled") +:+ endl.
Proof.
  intros Hf Haw How Hwr Hor Hrd Htok.
  assert (Hn : exists nv,
             normalize token = Some nv /\ one_line nv = true /\
             enabled_text nv
             = if bool_decide (token ∈ ["1"; "on"; "true"; "yes"])
               then "Enabled" else "Disabled").
  { repeat (apply elem_of_cons in Htok as [->|Htok];
            [eexists; split; [reflexivity|split; reflexivity]|]).
    now apply elem_of_nil in Htok. }
  destruct Hn as (nv & Hnv & Hline & Htext).
  destruct (onoff_set_unfold g f token) as [label ->].
  rewrite set_onoff_run, Hnv.
  destruct (written_then_opens (onoff_path g f) nv
              (label +:+ enabled_text nv +:+ endl) w c Hf Haw How Hwr Hor Hrd Hline)
    as (w1 & -> & _ & f1 & Ho & Hg).
  exists w1. eexists. split; [reflexivity|].
  rewrite onoff_read_run, Ho, Hg, Htext. split; reflexivity.
Qed.

Lemma onoff_set_then_read_witness :
  exists w1 w2,
    onoff_set sample_globals FUsb "on" world_onoff = (true, w1) /\
    onoff_read sample_globals FUsb w1 = (true, w2) /\
    cout w2 = cout w1 +:+ "USB charge: " +:+ "Enabled" +:+ endl.
Proof.
  apply (onoff_set_then_read sample_globals FUsb "on" world_onoff (plain_file "0")
           ltac:(vm_compute; reflexivity) eq_refl eq_refl eq_refl eq_refl eq_refl).
  apply (bool_decide_unpack _). vm_compute. exact I.
Defined.

Lemma one_line_to_string (v : Z) : one_line (to_string v) = true.
Proof.
  assert (Hd : forall ds, digit_string ds = true -> one_line ds = true).
  { intros ds Hds. destruct (digit_string_cons ds Hds) as (_ & _ & _ & _ & Hall).
    revert Hall. apply all_chars_impl. intros c Hc.
    apply isdigit_code in Hc. apply negb_true_iff, Z.eqb_neq. lia. }
  unfold to_string. destruct (v <? 0) eqn:Hv.
  - apply Z.ltb_lt in Hv. unfold one_line. cbn [all_chars].
    apply (Hd _ (proj1 (decimal_spec (- v) ltac:(lia)))).
  - apply Z.ltb_ge in Hv. exact (Hd _ (proj1 (decimal_spec v Hv))).
Qed.

(** X10. For every integer v from 0 to 3 and every numeric representation of
    it: on a brightness file that can be written and read and keeps what
    is written to it, [kbd set]
    succeeds and stores the decimal digits of v, and the [kbd read] that
    follows prints that level. *)
Theorem kbd_set_then_read (value : string) (v : Z) (w : world) (f : file) :
  0 <= v <= 3 ->
  integer_literal value = Some v ->
  files w !! KBD_BACKLIGHT_PATH = Some f ->
  f_access_w f = true -> f_open_w f = true -> f_write_ok f = true ->
  f_open_r f = true -> f_read_ok f = true ->
  exists w1 w2,
    set_keyboard_backlight value w = (true, w1) /\
    read_keyboard_backlight w1 = (true, w2) /\
    contents w1 KBD_BACKLIGHT_PATH = Some (to_string v) /\
    cout w2 = cout w1 +:+ "Keyboard backlight level: " +:+ to_string v +:+ endl.
Proof.
  intros Hv Hlit Hf Haw How Hwr Hor Hrd.
  pose proof (stoi_of_literal _ _ Hlit) as Hs.
  rewrite (in_int_small v 3 Hv) in Hs by (unfold INT_MAX; lia).
  rewrite set_keyboard_backlight_run, Hs, (proj2 (range_check_true v 3) Hv).
  destruct (written_then_opens KBD_BACKLIGHT_PATH (to_string v)
              ("Set keyboard backlight level to " +:+ to_string v +:+ endl)
              w f Hf Haw How Hwr Hor Hrd (one_line_to_string v))
    as (w1 & -> & Hc & f1 & Ho & Hg).
  exists w1. eexists. split; [reflexivity|].
  change (read_keyboard_backlight w1) with (reading_op RdKbd w1).
  rewrite (reading_op_run RdKbd w1). cbn [reading_path reading_text].
  rewrite Ho, Hg. repeat split. exact Hc.
Qed.

Lemma kbd_set_then_read_witness :
  exists w1 w2,
    set_keyboard_backlight "+2" (world_kbd "0") = (true, w1) /\
    read_keyboard_backlight w1 = (true, w2) /\
    contents w1 KBD_BACKLIGHT_PATH = Some "2".
Proof.
  destruct (kbd_set_then_read "+2" 2 (world_kbd "0") (plain_file "0")
              ltac:(lia) eq_refl ltac:(vm_compute; reflexivity)
              eq_refl eq_refl eq_refl eq_refl eq_refl)
    as (w1 & w2 & Hset & Hread & Hc & _).
  exists w1, w2. auto.
Defined.

(** X11. When the choices file opens, the mode occurs in its first line and
    the profile file can be written and read and keeps what is written
    to it: [perf set mode] succeeds,
    stores the mode as typed, and the [perf read] that follows prints
    exactly that mode (a mode that passes the check has no line break in
    it, so the one line read back is all of it). *)
Theorem perf_set_then_read (mode : string) (w : world) (c p : file) :
  opens w PLATFORM_PROFILE_CHOICES_PATH = Some c ->
  substring mode (getline c) ->
  files w !! PLATFORM_PROFILE_PATH = Some p ->
  f_access_w p = true -> f_open_w p = true -> f_write_ok p = true ->
  f_open_r p = true -> f_read_ok p = true ->
  exists w1 w2,
    set_performance_mode mode w = (true, w1) /\
    read_performance_mode w1 = (true, w2) /\
    contents w1 PLATFORM_PROFILE_PATH = Some mode /\
    cout w2 = cout w1 +:+ "Current performance mode: " +:+ mode +:+ endl.
Proof.
  intros Hc Hsub Hp Haw How Hwr Hor Hrd.
  assert (Hline : one_line mode = true).
  { apply (substring_one_line _ _ Hsub), getline_one_line. }
  rewrite set_performance_mode_run, read_file_opens, Hc.
  destruct (proj2 (find_spec (getline c) mode) Hsub) as [pos ->].
  destruct (written_then_opens PLATFORM_PROFILE_PATH mode
              ("Set performance mode to " +:+ mode +:+ endl)
              (add_trace w [SysOpenRead PLATFORM_PROFILE_CHOICES_PATH]) p
              Hp Haw How Hwr Hor Hrd Hline)
    as (w1 & -> & Hcont & f1 & Ho & Hg).
  exists w1. eexists. split; [reflexivity|].
  change (read_performance_mode w1) with (reading_op RdPerf w1).
  rewrite (reading_op_run RdPerf w1). cbn [reading_path reading_text].
  rewrite Ho, Hg. repeat split. exact Hcont.
Qed.

Lemma perf_set_then_read_witness :
  exists w1 w2,
    set_performance_mode "performance" world_perf = (true, w1) /\
    read_performance_mode w1 = (true, w2) /\
    contents w1 PLATFORM_PROFILE_PATH = Some "performance".
Proof.
  assert (Hsub : substring "performance"
                   (getline (plain_file ("low-power balanced performance" +:+ nl)))).
  { apply find_spec. vm_compute. eauto. }
  destruct (perf_set_then_read "performance" world_perf
              (plain_file ("low-power balanced performance" +:+ nl))
              (plain_file ("balanced" +:+ nl))
              ltac:(vm_compute; reflexivity) Hsub ltac:(vm_compute; reflexivity)
              eq_refl eq_refl eq_refl eq_refl eq_refl)
    as (w1 & w2 & Hset & Hread & Hc & _).
  exists w1, w2. auto.
Defined.

(** *** Integer arguments *)

(** X12. [kbd set] parses like [power set]: it succeeds exactly when the
    argument begins, after optional white space, with a numeral of a
    value from 0 to 3 (what follows the digits is ignored) and the
    permission check and the open pass; what it then hands to the write
    is [std::to_string] of that value, not the argument, and the
    brightness file holds that string when the write is taken. *)
Theorem set_keyboard_backlight_numeric_prefix (value : string) (w : world) :
  (fst (set_keyboard_backlight value w) = true <->
   (exists v, numeric_prefix value v /\ 0 <= v <= 3) /\
   can_write w KBD_BACKLIGHT_PATH = true)
  /\
  (fst (set_keyboard_backlight value w) = true ->
   exists v, numeric_prefix value v /\ 0 <= v <= 3 /\
     trace (snd (set_keyboard_backlight value w))
     = trace w ++ [SysAccess KBD_BACKLIGHT_PATH W_OK;
                   SysOpenWrite KBD_BACKLIGHT_PATH;
                   SysWrite KBD_BACKLIGHT_PATH (to_string v)] /\
     (write_ok w KBD_BACKLIGHT_PATH = true ->
      contents (snd (set_keyboard_backlight value w)) KBD_BACKLIGHT_PATH
      = Some (to_string v))).
Proof.
  rewrite (stoi_in_range value 3) by (unfold INT_MAX; lia).
  destruct (set_keyboard_backlight_cases value w)
    as [(val & Hs & Hv & ->)|[Hno [msg ->]]].
  - pose proof (write_then_report KBD_BACKLIGHT_PATH (to_string val)
                  ("Set keyboard backlight level to " +:+ to_string val +:+ endl) w)
      as [Hfst Hst].
    cbv zeta in Hfst, Hst. split.
    + rewrite Hfst. split; [intros Hc; split; [eauto|exact Hc] | now intros [_ Hc]].
    + intros Hok. exists val. split; [apply stoi_ok_numeric_prefix, Hs|].
      split; [exact Hv|]. apply (Hst Hok).
  - cbn [fst snd]. split; [|discriminate].
    split; [discriminate|]. intros [(v & Hv1 & Hv2) _]. now destruct (Hno v Hv1).
Qed.

Lemma set_keyboard_backlight_numeric_prefix_witness :
  exists v, numeric_prefix " 2abc" v /\ 0 <= v <= 3 /\
    trace (snd (set_keyboard_backlight " 2abc" (world_kbd "0")))
    = trace (world_kbd "0")
      ++ [SysAccess KBD_BACKLIGHT_PATH W_OK; SysOpenWrite KBD_BACKLIGHT_PATH;
          SysWrite KBD_BACKLIGHT_PATH (to_string v)].
Proof.
  destruct (proj2 (set_keyboard_backlight_numeric_prefix " 2abc" (world_kbd "0"))
              ltac:(vm_compute; reflexivity)) as (v & Hp & Hv & Ht & _).
  exists v. auto.
Defined.

(** X13. The two error texts of [power set]. A numeral whose value fits [int]
    but lies outside 0..100 gets "Value must be between 0 and 100"; a
    numeral too large for [int], and an argument that does not begin with
    a numeral at all, get "Invalid value" with the argument quoted. In
    all three cases nothing else happens. *)
Theorem set_power_error_texts (value : string) (w : world) :
  (forall v, numeric_prefix value v -> in_int v = true -> ~ 0 <= v <= 100 ->
     set_power value w
     = (false, add_cerr w ("Error: Value must be between 0 and 100" +:+ endl)))
  /\
  (forall v, numeric_prefix value v -> in_int v = false ->
     set_power value w
     = (false, add_cerr w ("Error: Invalid value '" +:+ value +:+ "'" +:+ endl)))
  /\
  ((forall v, ~ numeric_prefix value v) ->
     set_power value w
     = (false, add_cerr w ("Error: Invalid value '" +:+ value +:+ "'" +:+ endl))).
Proof.
  rewrite set_power_run. split; [|split].
  - intros v Hp Hin Hv. rewrite (stoi_of_numeric_prefix _ _ Hp), Hin.
    destruct ((v <? 0) || (v >? 100)) eqn:Hr; [reflexivity|].
    apply range_check_true in Hr. contradiction.
  - intros v Hp Hin. now rewrite (stoi_of_numeric_prefix _ _ Hp), Hin.
  - intros Hno. destruct (stoi value) as [val| |] eqn:Hs; try reflexivity.
    destruct (Hno val). apply stoi_ok_numeric_prefix, Hs.
Qed.

Lemma set_power_error_texts_witness :
  set_power "101" (world_power "80")
  = (false, add_cerr (world_power "80")
              ("Error: Value must be between 0 and 100" +:+ endl))
  /\ set_power "99999999999" (world_power "80")
  = (false, add_cerr (world_power "80")
              ("Error: Invalid value '99999999999'" +:+ endl)).
Proof.
  split.
  - apply (proj1 (set_power_error_texts "101" (world_power "80")) 101).
    + apply integer_literal_prefix. reflexivity.
    + reflexivity.
    + lia.
  - apply (proj1 (proj2 (set_power_error_texts "99999999999" (world_power "80")))
             99999999999).
    + apply integer_literal_prefix. reflexivity.
    + reflexivity.
Defined.

(** *** The resolver and the start of the process *)

Lemma no_write_trans (w1 w2 w3 : world) :
  no_write w1 w2 -> no_write w2 w3 -> no_write w1 w3.
Proof.
  intros [Hf1 (e1 & Ht1 & He1)] [Hf2 (e2 & Ht2 & He2)].
  split; [congruence|]. exists (e1 ++ e2).
  now rewrite Ht2, Ht1, app_assoc, forallb_app, He1, He2.
Qed.

Lemma no_write_add_trace (w : world) (evs : list syscall) :
  forallb (fun e => negb (is_write_event e)) evs = true ->
  no_write w (add_trace w evs).
Proof. intros H. split; [reflexivity|]. now exists evs. Qed.

Lemma qualifies_unfold (w : world) (name d_name : string) :
  qualifies w name d_name
  = String.prefix "SAM" d_name && readable w (nested_path d_name name).
Proof. reflexivity. Qed.

(** The loop returns the nested path of the first entry that qualifies,
    closes the directory itself exactly when it returns early, and makes
    no other kind of call than [readdir], [access] for reading and that
    [closedir]. *)
Lemma scan_driver_dir_run (name : string) (entries : list string) :
  forall w, exists evs,
    scan_driver_dir name entries w
    = (option_map (fun d => nested_path d name)
         (List.find (qualifies w name) entries),
       add_trace w evs) /\
    forallb (fun e => negb (is_write_event e)) evs = true /\
    forallb (fun e => negb (is_opendir e)) evs = true /\
    length (List.filter is_closedir evs)
    = match List.find (qualifies w name) entries with
      | Some _ => 1%nat
      | None => 0%nat
      end.
Proof.
  induction entries as [|e entries IH]; intros w.
  - exists [SysReaddir DRIVER_DIR]. repeat split.
  - cbn [scan_driver_dir List.find]. unfold bind, ret.
    rewrite readdir_run, strncmp_SAM, !(qualifies_unfold w name e).
    destruct (String.prefix "SAM" e) eqn:Hp; cbn [andb].
    + rewrite access_R_run, readable_add_trace.
      destruct (readable w (nested_path e name)) eqn:Hr.
      * rewrite closedir_run, !add_trace_app.
        eexists. split; [reflexivity|]. repeat split.
      * destruct (IH (add_trace (add_trace w [SysReaddir DRIVER_DIR])
                        [SysAccess (nested_path e name) R_OK]))
          as (evs & -> & Hw & Ho & Hc).
        rewrite !add_trace_app. eexists. split; [reflexivity|].
        cbn [app forallb List.filter is_closedir is_write_event is_opendir negb andb].
        repeat split; assumption.
    + destruct (IH (add_trace w [SysReaddir DRIVER_DIR])) as (evs & -> & Hw & Ho & Hc).
      rewrite !add_trace_app. eexists. split; [reflexivity|].
      cbn [app forallb List.filter is_closedir is_write_event is_opendir negb andb].
      repeat split; assumption.
Qed.

(** [detect_feature_path] computes [resolved] and only adds system calls
    to the trace. *)
Lemma detect_feature_path_run (name : string) (w : world) :
  exists evs,
    detect_feature_path name w = (resolved w name, add_trace w evs) /\
    forallb (fun e => negb (is_write_event e)) evs = true /\
    length (List.filter is_opendir evs)
    = (if readable w (UDEV_DIR +:+ name) then 0%nat else 1%nat) /\
    length (List.filter is_closedir evs)
    = (if readable w (UDEV_DIR +:+ name) then 0%nat
       else match dirs w !! DRIVER_DIR with
            | Some _ => 1%nat
            | None => 0%nat
            end).
Proof.
  unfold detect_feature_path, resolved, bind, ret.
  rewrite access_R_run.
  destruct (readable w (UDEV_DIR +:+ name)).
  - eexists. split; [reflexivity|]. repeat split.
  - rewrite opendir_run.
    change (dirs (add_trace w [SysAccess (UDEV_DIR +:+ name) R_OK])) with (dirs w).
    destruct (dirs w !! DRIVER_DIR) as [entries|].
    + destruct (scan_driver_dir_run name entries
                  (add_trace (add_trace w [SysAccess (UDEV_DIR +:+ name) R_OK])
                             [SysOpendir DRIVER_DIR]))
        as (evs & -> & Hw & Ho & Hc).
      change (qualifies (add_trace (add_trace w _) _) name)
        with (qualifies w name) in *.
      assert (Hopen : length (List.filter is_opendir evs) = 0%nat).
      { clear -Ho. induction evs as [|x evs IH]; [reflexivity|].
        cbn [forallb] in Ho. apply andb_true_iff in Ho as [Hx Ho].
        apply negb_true_iff in Hx. cbn [List.filter]. rewrite Hx. auto. }
      destruct (List.find (qualifies w name) entries) as [d|]; cbn [option_map].
      * rewrite !add_trace_app. eexists. split; [reflexivity|].
        cbn [app forallb List.filter is_closedir is_write_event is_opendir negb andb length].
        rewrite Hopen, Hc. repeat split. exact Hw.
      * rewrite closedir_run, !add_trace_app. eexists. split; [reflexivity|].
        cbn [app forallb List.filter is_closedir is_write_event is_opendir negb andb length].
        rewrite forallb_app, Hw, !List.filter_app, !length_app, Hopen, Hc.
        repeat split.
    + rewrite !add_trace_app. eexists. split; [reflexivity|]. repeat split.
Qed.

(** X14. [detect_feature_path] only looks: the files, the directories and
    both output streams are untouched and no system call of a write is
    made. It calls [opendir] once unless the udev path was readable, and
    calls [closedir] exactly once when that [opendir] succeeded, on the
    early return out of the loop as well as after it. *)
Theorem detect_feature_path_is_read_only (name : string) (w : world) :
  exists evs,
    snd (detect_feature_path name w) = add_trace w evs /\
    forallb (fun e => negb (is_write_event e)) evs = true /\
    length (List.filter is_opendir evs)
    = (if readable w (UDEV_DIR +:+ name) then 0%nat else 1%nat) /\
    length (List.filter is_closedir evs)
    = (if readable w (UDEV_DIR +:+ name) then 0%nat
       else match dirs w !! DRIVER_DIR with
            | Some _ => 1%nat
            | None => 0%nat
            end).
Proof.
  destruct (detect_feature_path_run name w) as (evs & -> & H).
  now exists evs.
Qed.

(** X15. A path returned by [detect_feature_path] other than the ACPI
    fallback was checked: it is readable. *)
Theorem detect_feature_path_checked (name : string) (w : world) :
  fst (detect_feature_path name w) <> ACPI_DIR +:+ name ->
  readable w (fst (detect_feature_path name w)) = true.
Proof.
  destruct (detect_feature_path_run name w) as (evs & -> & _).
  cbn [fst]. unfold resolved.
  destruct (readable w (UDEV_DIR +:+ name)) eqn:Hu; [now intros _|].
  destruct (dirs w !! DRIVER_DIR) as [entries|]; [|congruence].
  destruct (List.find (qualifies w name) entries) as [d|] eqn:Hfind; [|congruence].
  intros _. apply List.find_some in Hfind as [_ Hq].
  unfold qualifies in Hq. now apply andb_true_iff in Hq as [_ Hq].
Qed.

Lemma detect_feature_path_checked_witness :
  readable world_driver (fst (detect_feature_path "usb_charge" world_driver)) = true.
Proof.
  apply detect_feature_path_checked. vm_compute. discriminate.
Defined.

Lemma static_init_run (w : world) :
  exists evs,
    static_init w
    = ({| ALLOW_RECORDING_PATH := resolved w "allow_recording";
          START_ON_LID_OPEN_PATH := resolved w "start_on_lid_open";
          USB_CHARGE_PATH := resolved w "usb_charge" |},
       add_trace w evs) /\
    forallb (fun e => negb (is_write_event e)) evs = true.
Proof.
  unfold static_init, bind, ret.
  destruct (detect_feature_path_run "allow_recording" w) as (e1 & -> & H1 & _).
  destruct (detect_feature_path_run "start_on_lid_open" (add_trace w e1))
    as (e2 & -> & H2 & _).
  destruct (detect_feature_path_run "usb_charge" (add_trace (add_trace w e1) e2))
    as (e3 & -> & H3 & _).
  rewrite !add_trace_app. exists ((e1 ++ e2) ++ e3). split; [reflexivity|].
  now rewrite !forallb_app, H1, H2, H3.
Qed.

(** X16. The static initialisers resolve the three paths on one and the same
    file system: each global is what [detect_feature_path] returns for
    its feature on the initial world, whatever the order of
    initialisation, and start-up writes no file and prints nothing. *)
Theorem static_init_resolves_independently (w : world) :
  let g := fst (static_init w) in
  ALLOW_RECORDING_PATH g = fst (detect_feature_path "allow_recording" w) /\
  START_ON_LID_OPEN_PATH g = fst (detect_feature_path "start_on_lid_open" w) /\
  USB_CHARGE_PATH g = fst (detect_feature_path "usb_charge" w) /\
  no_write w (snd (static_init w)) /\
  cout (snd (static_init w)) = cout w /\ cerr (snd (static_init w)) = cerr w.
Proof.
  cbv zeta. destruct (static_init_run w) as (evs & -> & Hw).
  destruct (detect_feature_path_run "allow_recording" w) as (e1 & -> & _).
  destruct (detect_feature_path_run "start_on_lid_open" w) as (e2 & -> & _).
  destruct (detect_feature_path_run "usb_charge" w) as (e3 & -> & _).
  cbn [fst snd ALLOW_RECORDING_PATH START_ON_LID_OPEN_PATH USB_CHARGE_PATH].
  repeat split. exists evs. now split.
Qed.

(** *** The process as a whole *)

(** [main] after the static initialisers, case by case. *)
Lemma program_cases (argv : list string) (w : world) :
  exists evs,
    forallb (fun e => negb (is_write_event e)) evs = true /\
    let w0 := add_trace w evs in
    ((length argv < 2)%nat /\ program argv w = (1, add_cout w0 help_text))
    \/ (exists prog command rest,
          argv = prog :: command :: rest /\
          map_find command registered = None /\
          program argv w
          = (1, add_cout (add_cerr w0 ("Error: Unknown command '" +:+ command
                                       +:+ "'" +:+ endl)) help_text))
    \/ (exists prog command rest cmd g,
          argv = prog :: command :: rest /\
          map_find command registered = Some cmd /\
          program argv w
          = (let (ok, w') := execute g registered cmd (command :: rest) w0 in
             (if ok then 0 else 1, w'))).
Proof.
  unfold program, bind.
  destruct (static_init_run w) as (evs & -> & Hw).
  exists evs. split; [exact Hw|]. cbv zeta.
  destruct argv as [|prog [|command rest]].
  - left. split; [cbn; lia|]. unfold main, bind, ret. now rewrite run_help_run.
  - left. split; [cbn; lia|]. unfold main, bind, ret. now rewrite run_help_run.
  - right. unfold main, bind, ret.
    destruct (map_find command registered) as [cmd|] eqn:Hfind.
    + right. exists prog, command, rest, cmd. eexists.
      split; [reflexivity|]. split; [exact Hfind|reflexivity].
    + left. exists prog, command, rest.
      split; [reflexivity|]. split; [exact Hfind|].
      now rewrite print_err_run, run_help_run.
Qed.

(** X17. The process writes only when it is called as
    [<command> set <value>]: for every other argument vector, and on
    every file system, a whole run (the three path look-ups, then
    [main]) makes no system call of a write and leaves every file as it
    is. *)
Theorem program_writes_only_on_set (argv : list string) (w : world) :
  is_set_call (tl argv) = false ->
  no_write w (snd (program argv w)).
Proof.
  intros Hns.
  destruct (program_cases argv w) as (evs & Hw & H). cbv zeta in H.
  pose proof (no_write_add_trace w evs Hw) as H0.
  destruct H as [[_ ->]|[(prog & command & rest & -> & _ & ->)
                        |(prog & command & rest & cmd & g & -> & _ & ->)]].
  - apply (no_write_trans _ _ _ H0), no_write_add_cout.
  - apply (no_write_trans _ _ _ H0).
    eapply no_write_trans; [apply no_write_add_cerr|apply no_write_add_cout].
  - apply (no_write_trans _ _ _ H0).
    pose proof (execute_no_write g registered cmd (command :: rest)
                  (add_trace w evs) (or_introl Hns)) as He.
    now destruct (execute g registered cmd (command :: rest) (add_trace w evs)).
Qed.

Lemma program_writes_only_on_set_witness :
  no_write world_perf (snd (program ["samsung-cli"; "perf"; "list"] world_perf))
  /\ no_write world_perf (snd (program ["samsung-cli"; "set"; "perf"; "x"] world_perf)).
Proof.
  split; apply program_writes_only_on_set; reflexivity.
Defined.

(** X18. The exit status is 0 or 1, and a run that exits with 0 has written
    nothing to [cerr]. *)
Theorem program_exit_status (argv : list string) (w : world) :
  (fst (program argv w) = 0 \/ fst (program argv w) = 1) /\
  (fst (program argv w) = 0 -> cerr (snd (program argv w)) = cerr w).
Proof.
  destruct (program_cases argv w) as (evs & Hw & H). cbv zeta in H.
  destruct H as [[_ ->]|[(prog & command & rest & -> & _ & ->)
                        |(prog & command & rest & cmd & g & -> & _ & ->)]].
  - split; [now right|discriminate].
  - split; [now right|discriminate].
  - pose proof (execute_tidy g registered cmd (command :: rest) (add_trace w evs)) as Ht.
    unfold tidy_outcome in Ht.
    destruct (execute g registered cmd (command :: rest) (add_trace w evs)) as [[] w'];
      cbn [fst snd] in *.
    + split; [now left|]. intros _. apply Ht.
    + split; [now right|discriminate].
Qed.

Lemma program_exit_status_witness :
  cerr (snd (program ["samsung-cli"; "power"; "set"; "60"] (world_power "80")))
  = cerr (world_power "80").
Proof.
  apply (proj2 (program_exit_status ["samsung-cli"; "power"; "set"; "60"]
                  (world_power "80"))).
  vm_compute. reflexivity.
Defined.

(** X19. [help] and a call without arguments print the same listing, on any
    file system and whatever follows [help]; they differ in the exit
    status only: 0 for [help], 1 for the missing command. Neither
    writes to [cerr]. *)
Theorem program_help (prog : string) (rest : list string) (w : world) :
  fst (program [prog] w) = 1 /\
  fst (program (prog :: "help" :: rest) w) = 0 /\
  cout (snd (program [prog] w)) = cout w +:+ help_text /\
  cout (snd (program (prog :: "help" :: rest) w)) = cout w +:+ help_text /\
  cerr (snd (program [prog] w)) = cerr w /\
  cerr (snd (program (prog :: "help" :: rest) w)) = cerr w.
Proof.
  unfold program, bind.
  destruct (static_init_run w) as (evs & -> & _).
  unfold main, bind, ret. rewrite run_help_run.
  change (map_find "help" registered) with (Some HelpCommand).
  cbn [execute]. rewrite execute_help_run.
  change (help_header +:+ help_lines (map snd registered)) with help_text.
  repeat split.
Qed.

(** *** The command map *)

Lemma ltb_trichotomy (a b : string) :
  String.eqb a b = false -> String.ltb a b = false -> String.ltb b a = true.
Proof.
  unfold String.ltb. rewrite (String.compare_antisym b a).
  intros Hne Hlt. apply String.eqb_neq in Hne.
  destruct (String.compare a b) eqn:Hc; cbn.
  - apply String.compare_eq_iff in Hc. contradiction.
  - discriminate.
  - reflexivity.
Qed.

(** X20. Assignment and look-up on the command map: after [commands[key] =
    cmd] a look-up of [key] finds [cmd] (an earlier entry under that key
    is replaced), and the look-up of every other key gives what it gave
    before. *)
Theorem map_find_assign (key : string) (cmd : Command) (m : command_map) :
  map_find key (map_assign key cmd m) = Some cmd /\
  forall k, k <> key -> map_find k (map_assign key cmd m) = map_find k m.
Proof.
  induction m as [|[k0 c0] m [IH1 IH2]].
  - cbn. rewrite String.eqb_refl. split; [reflexivity|].
    intros k Hk. apply String.eqb_neq in Hk. now rewrite Hk.
  - cbn [map_assign].
    destruct (String.eqb_spec key k0) as [->|Hne].
    + cbn [map_find]. rewrite String.eqb_refl. split; [reflexivity|].
      intros k Hk. apply String.eqb_neq in Hk. now rewrite Hk.
    + destruct (String.ltb key k0).
      * cbn [map_find]. rewrite String.eqb_refl. split; [reflexivity|].
        intros k Hk. apply String.eqb_neq in Hk. now rewrite Hk.
      * cbn [map_find]. apply String.eqb_neq in Hne. rewrite Hne.
        split; [exact IH1|]. intros k Hk.
        destruct (String.eqb k k0); [reflexivity|]. now apply IH2.
Qed.

Lemma map_find_assign_witness :
  map_find "fan" (map_assign "kbd" KeyboardCommand
                    (map_assign "fan" FanCommand [])) = Some FanCommand.
Proof.
  rewrite (proj2 (map_find_assign "kbd" KeyboardCommand
                    (map_assign "fan" FanCommand [])) "fan") by discriminate.
  apply (proj1 (map_find_assign "fan" FanCommand [])).
Defined.

Lemma keys_increasing_cons (k : string) (c : Command) (m : command_map) :
  keys_increasing ((k, c) :: m)
  = match m with
    | [] => true
    | (k2, _) :: _ => String.ltb k k2 && keys_increasing m
    end.
Proof. destruct m as [|[k2 c2] m]; reflexivity. Qed.

(** X21. Assignment keeps the keys of the map strictly increasing, so the map
    never holds a key twice and a traversal (the help listing) goes in
    key order whatever the order of the assignments. *)
Theorem map_assign_keeps_order (key : string) (cmd : Command) (m : command_map) :
  keys_increasing m = true -> keys_increasing (map_assign key cmd m) = true.
Proof.
  induction m as [|[k0 c0] m IH]; [reflexivity|].
  intros Hm. cbn [map_assign].
  destruct (String.eqb key k0) eqn:He.
  - apply String.eqb_eq in He as ->.
    rewrite keys_increasing_cons in *. exact Hm.
  - destruct (String.ltb key k0) eqn:Hl.
    + rewrite keys_increasing_cons, Hl. exact Hm.
    + pose proof (ltb_trichotomy _ _ He Hl) as Hgt.
      rewrite keys_increasing_cons in Hm. rewrite keys_increasing_cons.
      destruct m as [|[k1 c1] m].
      * cbn [map_assign]. now rewrite Hgt.
      * apply andb_true_iff in Hm as [H01 Hm]. specialize (IH Hm).
        cbn [map_assign] in *.
        destruct (String.eqb key k1); [now rewrite Hgt|].
        destruct (String.ltb key k1); [now rewrite Hgt|].
        now rewrite H01.
Qed.

Lemma map_assign_keeps_order_witness :
  keys_increasing (map_assign "fan" FanCommand
                     (map_assign "power" PowerCommand [])) = true.
Proof.
  apply map_assign_keeps_order, map_assign_keeps_order. reflexivity.
Defined.

(** *** A write that is not taken *)

Lemma refused_write_report (path value msg : string) (w : world) :
  let r := match file_ops.write_file path value w with
           | (true, w') => (true, add_cout w' msg)
           | (false, w') => (false, w')
           end in
  fst r = true -> write_ok w path = false ->
  contents (snd r) path = Some EmptyString /\
  cerr (snd r) = cerr w /\ cout (snd r) = cout w +:+ msg.
Proof.
  cbv zeta. rewrite write_file_run. unfold write_ok, contents.
  destruct (files w !! path) as [f|]; [|discriminate].
  destruct (f_access_w f); [|discriminate].
  destruct (f_open_w f); [|discriminate].
  intros _ ->. cbn [snd files cerr cout add_cout add_trace with_file].
  rewrite lookup_insert_eq. repeat split.
Qed.

Lemma onoff_set_label (g : globals) (f : onoff_feature) (value : string) :
  exists label,
    label <> EmptyString /\
    onoff_set g f value = set_onoff (onoff_path g f) label value.
Proof. destruct f; eexists; (split; [|reflexivity]); discriminate. Qed.

(** X22. A write the file does not take goes unnoticed. For every
    feature with a set operation: when the handler returns true although
    the write on the backing file is not taken, the file is left empty
    (the open truncated it), nothing is written to [cerr], and the
    confirmation is printed to [cout] all the same. *)
Theorem refused_write_goes_unnoticed (g : globals) (f : settable)
    (value : string) (w : world) :
  fst (set_operation g f value w) = true ->
  write_ok w (backing_file g f) = false ->
  contents (snd (set_operation g f value w)) (backing_file g f)
  = Some EmptyString /\
  cerr (snd (set_operation g f value w)) = cerr w /\
  exists msg, msg <> EmptyString /\
    cout (snd (set_operation g f value w)) = cout w +:+ msg.
Proof.
  assert (Hgen : forall path v msg w0,
             cerr w0 = cerr w -> cout w0 = cout w ->
             write_ok w0 path = write_ok w path ->
             msg <> EmptyString ->
             let r := match file_ops.write_file path v w0 with
                      | (true, w') => (true, add_cout w' msg)
                      | (false, w') => (false, w')
                      end in
             fst r = true -> write_ok w path = false ->
             contents (snd r) path = Some EmptyString /\
             cerr (snd r) = cerr w /\
             exists m, m <> EmptyString /\ cout (snd r) = cout w +:+ m).
  { intros path v msg w0 Hce Hco Hwo Hmsg r Hok Hno. rewrite <- Hwo in Hno.
    destruct (refused_write_report path v msg w0 Hok Hno) as (Hc & He & Ho).
    split; [exact Hc|]. split; [now rewrite <- Hce|].
    exists msg. split; [exact Hmsg|]. now rewrite <- Hco. }
  destruct f as [| | |f]; cbn [set_operation backing_file].
  - rewrite set_power_run. destruct (stoi value) as [val| |]; try discriminate.
    destruct ((val <? 0) || (val >? 100)); [discriminate|].
    apply Hgen; try reflexivity. rewrite append_cons. discriminate.
  - rewrite set_performance_mode_run, read_file_run.
    destruct (files w !! PLATFORM_PROFILE_CHOICES_PATH) as [c|]; [|discriminate].
    destruct (f_open_r c); [|discriminate].
    destruct (find (getline c) value); [|discriminate].
    apply Hgen; try reflexivity. rewrite append_cons. discriminate.
  - rewrite set_keyboard_backlight_run.
    destruct (stoi value) as [val| |]; try discriminate.
    destruct ((val <? 0) || (val >? 3)); [discriminate|].
    apply Hgen; try reflexivity. rewrite append_cons. discriminate.
  - destruct (onoff_set_label g f value) as (label & Hlabel & ->).
    rewrite set_onoff_run.
    destruct (normalize value) as [nv|]; [|discriminate].
    apply Hgen; try reflexivity.
    destruct label; [contradiction|]. rewrite append_cons. discriminate.
Qed.

Lemma refused_write_goes_unnoticed_witness :
  contents (snd (set_operation sample_globals SPower "85" world_refusing)) POWER_PATH
  = Some EmptyString /\
  cerr (snd (set_operation sample_globals SPower "85" world_refusing)) = EmptyString.
Proof.
  destruct (refused_write_goes_unnoticed sample_globals SPower "85" world_refusing
              ltac:(vm_compute; reflexivity) ltac:(vm_compute; reflexivity))
    as (Hc & He & _).
  split; assumption.
Defined.
